(** * pythonJobsApplier: the job-application automator, revision by revision

    The repository is a history of one Selenium script,
    [job_application_automator.py].  This development embeds three of its
    revisions

      - [.history/job_application_automator_20240920204534.py]  (the first),
      - [.history/job_application_automator_20240921144401.py],
      - [.history/job_application_automator_20240925103923.py]  (the last),

    as programs of a small exception-and-state monad whose primitive steps are
    the calls the script makes to the outside world (the WebDriver, the file
    system, the clock, the random generator, standard output).  Every such
    call is recorded, in order, in the log of the run; the browser answers
    each driver command with a reply taken from an oracle, so that a theorem
    quantified over the initial world speaks about every behaviour of the
    web site. *)

From Stdlib Require Import String Ascii List ZArith NArith Lia Bool DecimalString Sorted.
From stdpp Require Import base strings gmap sets list.

Local Open Scope Z_scope.

(** ** Python builtins used by the script *)

Module Py.

(** Characters are the code points below 256; [isalnum] and [isspace] are
    Python's [str.isalnum] and [str.isspace] on that range. *)
Definition code (c : ascii) : N := N_of_ascii c.

Definition isdigit_ascii (c : ascii) : bool :=
  ((48 <=? code c) && (code c <=? 57))%N.

Definition isalnum (c : ascii) : bool :=
  let n := code c in
  (((48 <=? n) && (n <=? 57)) || ((65 <=? n) && (n <=? 90))
   || ((97 <=? n) && (n <=? 122))
   || (n =? 170) || (n =? 178) || (n =? 179) || (n =? 181) || (n =? 185)
   || (n =? 186) || ((188 <=? n) && (n <=? 190))
   || ((192 <=? n) && (n <=? 214)) || ((216 <=? n) && (n <=? 246))
   || ((248 <=? n) && (n <=? 255)))%N.

Definition isspace (c : ascii) : bool :=
  let n := code c in
  (((9 <=? n) && (n <=? 13)) || ((28 <=? n) && (n <=? 32))
   || (n =? 133) || (n =? 160))%N.

(** ["".join(c for c in s if keep(c))] *)
Fixpoint join_if (keep : ascii -> bool) (s : string) : string :=
  match s with
  | EmptyString => EmptyString
  | String c s' => if keep c then String c (join_if keep s') else join_if keep s'
  end.

(** [s.rstrip(chars)], the trailing characters satisfying [drop] removed. *)
Fixpoint rstrip_with (drop : ascii -> bool) (s : string) : string :=
  match s with
  | EmptyString => EmptyString
  | String c s' =>
      match rstrip_with drop s' with
      | EmptyString => if drop c then EmptyString else String c EmptyString
      | r => String c r
      end
  end.

Fixpoint lstrip_with (drop : ascii -> bool) (s : string) : string :=
  match s with
  | EmptyString => EmptyString
  | String c s' => if drop c then lstrip_with drop s' else s
  end.

(** [s.rstrip()] and [s.strip()]: with no argument, white space is removed. *)
Definition rstrip (s : string) : string := rstrip_with isspace s.
Definition strip (s : string) : string := rstrip_with isspace (lstrip_with isspace s).

(** [s.replace(old, new)] for a one-character [old]. *)
Fixpoint replace_char (old : ascii) (new : string) (s : string) : string :=
  match s with
  | EmptyString => EmptyString
  | String c s' =>
      if Ascii.eqb c old then new +:+ replace_char old new s'
      else String c (replace_char old new s')
  end.

(** [needle in s] *)
Fixpoint contains (needle s : string) : bool :=
  String.prefix needle s ||
  match s with
  | EmptyString => false
  | String _ s' => contains needle s'
  end.

(** [str(n)] and [f'{n}'] for a non-negative integer. *)
Definition str_of_N (n : N) : string := NilEmpty.string_of_uint (N.to_uint n).

Definition str_of_Z (z : Z) : string :=
  if z <? 0 then String "-" (str_of_N (Z.to_N (- z))) else str_of_N (Z.to_N z).

(** [int(s)]: white space around the literal is dropped, a sign may come
    first, and the digits may be grouped by single underscores. *)
Fixpoint digits_value (acc : Z) (after_digit : bool) (s : string) : option Z :=
  match s with
  | EmptyString => if after_digit then Some acc else None
  | String c s' =>
      if isdigit_ascii c
      then digits_value (10 * acc + Z.of_N (code c - 48)) true s'
      else if Ascii.eqb c "_" && after_digit
           then match s' with
                | String d _ =>
                    if isdigit_ascii d then digits_value acc false s' else None
                | EmptyString => None
                end
           else None
  end.

Definition int (s : string) : option Z :=
  match strip s with
  | String "+" s' => digits_value 0 false s'
  | String "-" s' => option_map Z.opp (digits_value 0 false s')
  | s' => digits_value 0 false s'
  end.

(** [os.path.join(a, b)] for a relative [b] and a non-empty [a] that does
    not end in the separator. *)
Definition path_join (a b : string) : string := a +:+ "/" +:+ b.

End Py.

(** ** [sanitize_title] (identical in the revisions 20240921144401 and
    20240925103923). *)

Definition sanitize_keep (c : ascii) : bool :=
  Py.isalnum c || Ascii.eqb c " " || Ascii.eqb c "_".

Definition sanitize_title (title : string) : string :=
  Py.replace_char " " "_" (Py.rstrip (Py.join_if sanitize_keep title)).


(** ** The outside world: exceptions, elements, calls and replies *)

Inductive SeleniumExc :=
| NoSuchElementException
| TimeoutException
| ElementClickInterceptedException
| ElementNotInteractableException
| StaleElementReferenceException
| NoSuchWindowException
| WebDriverException.      (* the base class: any other driver failure *)

(** The exceptions the script can meet.  All derive from [Exception] except
    [SystemExit], which [exit(n)] raises. *)
Inductive Exc :=
| Selenium (e : SeleniumExc)
| KeyError (key : string)
| ValueError (msg : string)
| AttributeError (msg : string)
| UnboundLocalError (var : string)
| IndexError
| OSError
| SystemExit (code : Z).

Definition is_Exception (e : Exc) : bool :=
  match e with SystemExit _ => false | _ => true end.

Definition is_WebDriverException (e : Exc) : bool :=
  match e with Selenium _ => true | _ => false end.

Definition is_KeyError (e : Exc) : bool :=
  match e with KeyError _ => true | _ => false end.

Definition is_ValueError (e : Exc) : bool :=
  match e with ValueError _ => true | _ => false end.

Definition is_NoSuchElementException (e : Exc) : bool :=
  match e with Selenium NoSuchElementException => true | _ => false end.

(** [except (NoSuchElementException, TimeoutException)] *)
Definition is_NoSuchElement_or_Timeout (e : Exc) : bool :=
  match e with
  | Selenium NoSuchElementException | Selenium TimeoutException => true
  | _ => false
  end.

(** [except (ElementClickInterceptedException, ElementNotInteractableException)] *)
Definition is_Intercepted_or_NotInteractable (e : Exc) : bool :=
  match e with
  | Selenium ElementClickInterceptedException
  | Selenium ElementNotInteractableException => true
  | _ => false
  end.

(** [f'{e}']: the text of an exception.  The driver's own message is not
    known to the script; the class name stands for it. *)
Definition str_exc (e : Exc) : string :=
  match e with
  | Selenium NoSuchElementException => "Message: no such element"
  | Selenium TimeoutException => "Message: "
  | Selenium ElementClickInterceptedException => "Message: element click intercepted"
  | Selenium ElementNotInteractableException => "Message: element not interactable"
  | Selenium StaleElementReferenceException => "Message: stale element reference"
  | Selenium NoSuchWindowException => "Message: no such window"
  | Selenium WebDriverException => "Message: unknown error"
  | KeyError k => "'" +:+ k +:+ "'"
  | ValueError m => m
  | AttributeError m => m
  | UnboundLocalError v =>
      "cannot access local variable '" +:+ v +:+ "' where it is not associated with a value"
  | IndexError => "list index out of range"
  | OSError => "OSError"
  | SystemExit c => Py.str_of_Z c
  end.

Inductive By := By_ID | By_NAME | By_XPATH | By_CSS_SELECTOR | By_TAG_NAME.

Definition By_eqb (a b : By) : bool :=
  match a, b with
  | By_ID, By_ID | By_NAME, By_NAME | By_XPATH, By_XPATH
  | By_CSS_SELECTOR, By_CSS_SELECTOR | By_TAG_NAME, By_TAG_NAME => true
  | _, _ => false
  end.

Definition Locator : Type := By * string.

Definition Locator_eqb (a b : Locator) : bool :=
  By_eqb (fst a) (fst b) && String.eqb (snd a) (snd b).

(** A [WebElement]: the identity the browser gave it, and the locator the
    script found it with. *)
Record Elem := mkElem { el_loc : Locator; el_id : N }.

(** A shadow root handle, as returned by ['return arguments[0].shadowRoot']. *)
Record ShadowRoot := mkShadow { sr_host : Elem; sr_id : N }.

(** Where a [find_element] searches: [driver.], [element.] or [shadow_root.] *)
Inductive Scope :=
| Document
| Within (e : Elem)
| InShadow (r : ShadowRoot).

Definition Handle : Type := string.

(** [expected_conditions] *)
Inductive Condition :=
| presence_of_element_located (loc : Locator)
| presence_of_all_elements_located (loc : Locator)
| element_to_be_clickable (loc : Locator)
| url_contains (s : string).

(** Every call the script makes to the outside world. *)
Inductive Call :=
| ConfigRead (file : string)                 (* config.read(file) *)
| LogOpen (file : string)                    (* logging.basicConfig(filename=file, ...) *)
| LogWrite (file : string) (record : string) (* logging.info / logging.error *)
| Launch                                     (* webdriver.Chrome(options=chrome_options) *)
| MaximizeWindow
| Get (url : string)
| CurrentUrl
| FindElement (sc : Scope) (loc : Locator)
| FindElements (sc : Scope) (loc : Locator)
| Click (e : Elem)
| Clear (e : Elem)
| SendKeys (e : Elem) (text : string)
| Text (e : Elem)
| GetAttribute (e : Elem) (name : string)
| ExecuteScript (script : string) (arg : Elem)
| WaitUntil (timeout : Z) (c : Condition)    (* WebDriverWait(driver, timeout).until(c) *)
| CurrentWindowHandle
| WindowHandles
| SwitchToWindow (h : Handle)
| Close
| Back
| Quit
| SaveScreenshot (path : string)
| MakeDirs (path : string)                   (* os.makedirs(path, exist_ok=True) *)
| Print (msg : string)
| Sleep (secs : Z)                           (* time.sleep of a fixed delay *)
| Pause (secs : Z)                           (* time.sleep(PAUSE_DURATION) in main's loop *)
| RandInt (a b : Z).

(** One entry of the log: the call, and whether it took effect. *)
Record Event := Ev { ev_call : Call; ev_ok : bool }.

(** What the outside world answers to one call.  A call reads the fields it
    needs and ignores the others. *)
Record Reply := mkReply {
  r_exc : option SeleniumExc;          (* the driver command fails with this *)
  r_id : N;                            (* the element (or shadow root) found *)
  r_ids : list N;                      (* the elements found *)
  r_text : string;                     (* a text, an attribute, a window handle *)
  r_shadow : bool;                     (* the host element has a shadow root *)
  r_opened : list (Handle * string);   (* windows a click opens, with their URLs *)
  r_nav : option string;               (* the focused window navigates to this URL *)
  r_written : bool                     (* the file-system operation succeeds *)
}.

Definition ok_reply : Reply :=
  mkReply None 0%N [] "" true [] None true.

(** The reply of a browser that is gone. *)
Definition dead_reply : Reply :=
  mkReply (Some WebDriverException) 0%N [] "" false [] None false.

Record World := mkWorld {
  windows : list (Handle * string);   (* driver.window_handles, in order, with URLs *)
  focus : Handle;                     (* driver.current_window_handle *)
  oracle : list Reply;                (* the replies still to come *)
  rng : list N;                       (* the random draws still to come *)
  clock : N;                          (* int(time.time()) *)
  heap : list (gset string);          (* the Python set objects, by reference *)
  original_window : option Handle     (* the local of apply_to_job; None: unbound *)
}.

Definition set_windows ws (w : World) : World :=
  mkWorld ws (focus w) (oracle w) (rng w) (clock w) (heap w) (original_window w).
Definition set_focus h (w : World) : World :=
  mkWorld (windows w) h (oracle w) (rng w) (clock w) (heap w) (original_window w).
Definition set_oracle o (w : World) : World :=
  mkWorld (windows w) (focus w) o (rng w) (clock w) (heap w) (original_window w).
Definition set_rng g (w : World) : World :=
  mkWorld (windows w) (focus w) (oracle w) g (clock w) (heap w) (original_window w).
Definition set_clock c (w : World) : World :=
  mkWorld (windows w) (focus w) (oracle w) (rng w) c (heap w) (original_window w).
Definition set_heap hp (w : World) : World :=
  mkWorld (windows w) (focus w) (oracle w) (rng w) (clock w) hp (original_window w).
Definition set_original_window v (w : World) : World :=
  mkWorld (windows w) (focus w) (oracle w) (rng w) (clock w) (heap w) v.

Definition handles (w : World) : list Handle := map fst (windows w).

Definition has_window (h : Handle) (ws : list (Handle * string)) : bool :=
  existsb (fun hw => String.eqb (fst hw) h) ws.

Fixpoint url_of (h : Handle) (ws : list (Handle * string)) : option string :=
  match ws with
  | [] => None
  | (h', u) :: ws' => if String.eqb h' h then Some u else url_of h ws'
  end.

Definition current_url_of (w : World) : option string := url_of (focus w) (windows w).

Definition set_url (h : Handle) (u : string) (ws : list (Handle * string)) :=
  map (fun hw => if String.eqb (fst hw) h then (fst hw, u) else hw) ws.

Definition navigate (nav : option string) (h : Handle) (ws : list (Handle * string)) :=
  match nav with Some u => set_url h u ws | None => ws end.

(** New windows go to the end of the handle list; a handle already in use is
    not opened a second time. *)
Definition open_windows (new ws : list (Handle * string)) :=
  fold_left (fun acc hw => if has_window (fst hw) acc then acc else acc ++ [hw]) new ws.

Definition close_window (h : Handle) (ws : list (Handle * string)) :=
  List.filter (fun hw => negb (String.eqb (fst hw) h)) ws.

Definition js_click : string := "arguments[0].click();".
Definition js_scroll_center : string := "arguments[0].scrollIntoView({block: 'center'});".
Definition js_scroll_true : string := "arguments[0].scrollIntoView(true);".
Definition js_shadow_root : string := "return arguments[0].shadowRoot".

(** The failure of a call, if it fails.  A command other than a window
    switch needs the focused window to be open; [quit] swallows its errors. *)
Definition failure (c : Call) (r : Reply) (w : World) : option Exc :=
  match c with
  | Quit => None
  | Launch | WindowHandles => Selenium <$> r_exc r
  | SwitchToWindow h =>
      if has_window h (windows w) then Selenium <$> r_exc r
      else Some (Selenium NoSuchWindowException)
  | MakeDirs _ => if r_written r then None else Some OSError
  | _ =>
      if has_window (focus w) (windows w) then Selenium <$> r_exc r
      else Some (Selenium NoSuchWindowException)
  end.

(** The effect of a successful call on the browser's windows. *)
Definition effect (c : Call) (r : Reply) (w : World) : World :=
  match c with
  | Launch => set_focus (r_text r) (set_windows [(r_text r, "data:,")] w)
  | Get u => set_windows (set_url (focus w) u (windows w)) w
  | Click _ =>
      set_windows (open_windows (r_opened r) (navigate (r_nav r) (focus w) (windows w))) w
  | ExecuteScript s _ =>
      if String.eqb s js_click
      then set_windows
             (open_windows (r_opened r) (navigate (r_nav r) (focus w) (windows w))) w
      else w
  | Back => set_windows (navigate (r_nav r) (focus w) (windows w)) w
  | Close => set_windows (close_window (focus w) (windows w)) w
  | SwitchToWindow h => set_focus h w
  | Quit => set_windows [] w
  | _ => w
  end.

Definition took_effect (c : Call) (r : Reply) : bool :=
  match c with SaveScreenshot _ => r_written r | _ => true end.

(** ** The monad of the script: state, exceptions and a log *)

Inductive Result (A : Type) :=
| Ok (a : A)
| Raised (e : Exc).
Arguments Ok {A} a.
Arguments Raised {A} e.

Record Out (A : Type) := mkOut { res : Result A; post : World; log : list Event }.
Arguments mkOut {A} res post log.
Arguments res {A} o.
Arguments post {A} o.
Arguments log {A} o.

Definition M (A : Type) : Type := World -> Out A.

#[global] Instance M_ret : MRet M := fun A a w => mkOut (Ok a) w [].

#[global] Instance M_bind : MBind M := fun A B f m w =>
  let o := m w in
  match res o with
  | Ok a => let o' := f a (post o) in mkOut (res o') (post o') (log o ++ log o')
  | Raised e => mkOut (Raised e) (post o) (log o)
  end.

Definition raise {A} (e : Exc) : M A := fun w => mkOut (Raised e) w [].

(** [exit(code)] *)
Definition exit {A} (code : Z) : M A := raise (SystemExit code).

(** One [except] clause: the classes it names and its body. *)
Definition Clause (A : Type) : Type := (Exc -> bool) * (Exc -> M A).

Fixpoint select {A} (cs : list (Clause A)) (e : Exc) : option (M A) :=
  match cs with
  | [] => None
  | (cls, body) :: cs' => if cls e then Some (body e) else select cs' e
  end.

(** [try: m  except ...: ...]; the first clause that names the exception
    runs, and an exception raised by the clause itself propagates. *)
Definition try_except {A} (m : M A) (cs : list (Clause A)) : M A := fun w =>
  let o := m w in
  match res o with
  | Ok _ => o
  | Raised e =>
      match select cs e with
      | None => o
      | Some h => let o' := h (post o) in mkOut (res o') (post o') (log o ++ log o')
      end
  end.

(** [try: m  finally: fin]; an exception raised by [fin] replaces the
    outcome of [m]. *)
Definition try_finally {A} (m : M A) (fin : M unit) : M A := fun w =>
  let o := m w in
  let o' := fin (post o) in
  mkOut (match res o' with Ok _ => res o | Raised e => Raised e end)
        (post o') (log o ++ log o').

(** *** Calls *)

(** A call answered by the outside world: the next reply of the oracle is
    consumed, the call is logged, and it either fails or takes effect. *)
Definition perform (c : Call) : M Reply := fun w =>
  let r := hd dead_reply (oracle w) in
  let w1 := set_oracle (tl (oracle w)) w in
  match failure c r w with
  | Some e => mkOut (Raised e) w1 [Ev c false]
  | None => mkOut (Ok r) (effect c r w1) [Ev c (took_effect c r)]
  end.

(** Reading the state of the world. *)
Definition gets {A} (f : World -> A) : M A := fun w => mkOut (Ok (f w)) w [].

(** A call that cannot fail and returns nothing. *)
Definition emit (c : Call) : M unit := fun w => mkOut (Ok tt) w [Ev c true].

Definition print (msg : string) : M unit := emit (Print msg).

Definition sleep_as (mk : Z -> Call) (secs : Z) : M unit := fun w =>
  if secs <? 0
  then mkOut (Raised (ValueError "sleep length must be non-negative")) w [Ev (mk secs) false]
  else mkOut (Ok tt) (set_clock (clock w + Z.to_N secs)%N w) [Ev (mk secs) true].

(** [time.sleep(secs)] *)
Definition sleep (secs : Z) : M unit := sleep_as Sleep secs.

(** [int(time.time())] *)
Definition time_now : M N := gets clock.

(** [random.randint(a, b)]: a draw [n] of the generator gives
    [a + n mod (b - a + 1)]; an empty range raises [ValueError]. *)
Definition randint (a b : Z) : M Z := fun w =>
  if b <? a
  then mkOut (Raised (ValueError "empty range for randrange()")) w [Ev (RandInt a b) false]
  else mkOut (Ok (a + Z.of_N (hd 0%N (rng w)) mod (b - a + 1)))
             (set_rng (tl (rng w)) w) [Ev (RandInt a b) true].

(** *** The WebDriver API, as the script uses it *)

Definition driver_get (url : string) : M unit := perform (Get url);; mret tt.

Definition driver_current_url : M string :=
  perform CurrentUrl;; gets (fun w => default "" (current_url_of w)).

Definition find_element (sc : Scope) (by_ : By) (sel : string) : M Elem :=
  r ← perform (FindElement sc (by_, sel)); mret (mkElem (by_, sel) (r_id r)).

Definition find_elements (sc : Scope) (by_ : By) (sel : string) : M (list Elem) :=
  r ← perform (FindElements sc (by_, sel)); mret (map (mkElem (by_, sel)) (r_ids r)).

Definition click (e : Elem) : M unit := perform (Click e);; mret tt.
Definition clear (e : Elem) : M unit := perform (Clear e);; mret tt.
Definition send_keys (e : Elem) (text : string) : M unit := perform (SendKeys e text);; mret tt.
Definition text_of (e : Elem) : M string := r ← perform (Text e); mret (r_text r).
Definition get_attribute (e : Elem) (name : string) : M string :=
  r ← perform (GetAttribute e name); mret (r_text r).

Definition execute_script (script : string) (arg : Elem) : M unit :=
  perform (ExecuteScript script arg);; mret tt.

(** [driver.execute_script('return arguments[0].shadowRoot', host)]: the
    shadow root, or [None] when the host has none. *)
Definition execute_script_shadow_root (host : Elem) : M (option ShadowRoot) :=
  r ← perform (ExecuteScript js_shadow_root host);
  mret (if r_shadow r then Some (mkShadow host (r_id r)) else None).

(** [WebDriverWait(driver, timeout).until(EC.<cond>(locator))] *)
Definition wait_until_element (timeout : Z) (cond : Locator -> Condition)
    (by_ : By) (sel : string) : M Elem :=
  r ← perform (WaitUntil timeout (cond (by_, sel))); mret (mkElem (by_, sel) (r_id r)).

Definition wait_until_elements (timeout : Z) (by_ : By) (sel : string) : M (list Elem) :=
  r ← perform (WaitUntil timeout (presence_of_all_elements_located (by_, sel)));
  mret (map (mkElem (by_, sel)) (r_ids r)).

Definition wait_until_url_contains (timeout : Z) (s : string) : M unit :=
  perform (WaitUntil timeout (url_contains s));; mret tt.

Definition driver_current_window_handle : M Handle :=
  perform CurrentWindowHandle;; gets focus.

Definition driver_window_handles : M (list Handle) :=
  perform WindowHandles;; gets handles.

Definition driver_switch_to_window (h : Handle) : M unit := perform (SwitchToWindow h);; mret tt.
Definition driver_close : M unit := perform Close;; mret tt.
Definition driver_back : M unit := perform Back;; mret tt.
Definition driver_quit : M unit := perform Quit;; mret tt.
Definition driver_maximize_window : M unit := perform MaximizeWindow;; mret tt.

(** [driver.save_screenshot(path)]: [True] when the file was written. *)
Definition driver_save_screenshot (path : string) : M bool :=
  r ← perform (SaveScreenshot path); mret (r_written r).

Definition os_makedirs (path : string) : M unit := perform (MakeDirs path);; mret tt.

(** [shadow_root.find_element(by, sel)], where [shadow_root] may be [None]. *)
Definition shadow_find_element (shadow_root : option ShadowRoot) (by_ : By) (sel : string)
    : M Elem :=
  match shadow_root with
  | Some r => find_element (InShadow r) by_ sel
  | None => raise (AttributeError "'NoneType' object has no attribute 'find_element'")
  end.

(** [[window for window in windows if window != original][0]] *)
Definition first_other (original : Handle) (windows : list Handle) : M Handle :=
  match List.filter (fun h => negb (String.eqb h original)) windows with
  | h :: _ => mret h
  | [] => raise IndexError
  end.

(** The local variable [original_window] of [apply_to_job]: unbound when the
    function is entered, bound by its assignment. *)
Definition unbind_original_window : M unit := fun w =>
  mkOut (Ok tt) (set_original_window None w) [].

Definition assign_original_window (h : Handle) : M unit := fun w =>
  mkOut (Ok tt) (set_original_window (Some h) w) [].

(** *** Python sets, by reference *)

Definition set_new : M nat := fun w =>
  mkOut (Ok (length (heap w))) (set_heap (heap w ++ [∅]) w) [].

Definition set_lookup (l : nat) (w : World) : gset string := default ∅ (heap w !! l).

(** [x in s] *)
Definition set_contains (l : nat) (x : string) : M bool :=
  gets (fun w => bool_decide (x ∈ set_lookup l w)).

(** [s.add(x)] *)
Definition set_add (l : nat) (x : string) : M unit := fun w =>
  mkOut (Ok tt) (set_heap (alter (fun s => {[x]} ∪ s) l (heap w)) w) [].

(** *** Configuration, text and exit status *)

(** [config['DEFAULT'][key]] *)
Definition config_get (cfg : gmap string string) (key : string) : M string :=
  match cfg !! key with
  | Some v => mret v
  | None => raise (KeyError key)
  end.

(** [int(s)] *)
Definition py_int (s : string) : M Z :=
  match Py.int s with
  | Some z => mret z
  | None => raise (ValueError ("invalid literal for int() with base 10: '" +:+ s +:+ "'"))
  end.

(** The status with which the interpreter ends. *)
Definition exit_status {A} (r : Result A) : Z :=
  match r with
  | Ok _ => 0
  | Raised (SystemExit code) => code
  | Raised _ => 1
  end.

(** The double quote, and a quoted text. *)
Definition dq : string := String (ascii_of_nat 34) EmptyString.
Definition quoted (s : string) : string := dq +:+ s +:+ dq.

(** [f'{l}'] for a list of strings. *)
Definition repr_list (l : list string) : string :=
  "[" +:+ String.concat ", " (map (fun s => "'" +:+ s +:+ "'") l) +:+ "]".

(** The locators of the script. *)
Definition xp_search_cards : string :=
  "//div[contains(@class, " +:+ quoted "card" +:+ ") and contains(@class, "
    +:+ quoted "search-card" +:+ ")]".
Definition xp_card_title_link : string := ".//a[@data-cy=" +:+ quoted "card-title-link" +:+ "]".
Definition xp_title_links : string := "//a[@data-cy=" +:+ quoted "card-title-link" +:+ "]".
Definition xp_job_details : string := "//div[contains(@class, " +:+ quoted "job-details" +:+ ")]".
Definition xp_next : string := "//button[contains(text(), " +:+ quoted "Next" +:+ ")]".
Definition xp_submit : string := "//button[contains(text(), " +:+ quoted "Submit" +:+ ")]".
Definition xp_easy_apply : string := "//button[contains(text(), " +:+ quoted "Easy Apply" +:+ ")]".
Definition xp_file_input : string := "//input[@type=" +:+ quoted "file" +:+ "]".
Definition xp_sign_in : string :=
  "//button[contains(@data-testid, " +:+ quoted "sign-in-button" +:+ ")]".
Definition xp_submit_password : string :=
  "//button[contains(@data-testid, " +:+ quoted "submit-password" +:+ ")]".
Definition css_apply_button_wc : string := "apply-button-wc".
Definition css_btn_primary : string := "button.btn.btn-primary".
Definition css_btn_next : string := "button.btn-next".

(** ** Utility functions and the [finally] block of [apply_to_job] (the
    same text in the revisions 20240921144401 and 20240925103923) *)

Definition create_directory (path : string) : M unit :=
  try_except
    (os_makedirs path;;
     print ("Created directory at path: " +:+ path))
    [(is_Exception, fun e =>
        print ("Failed to create directory " +:+ path +:+ ": " +:+ str_exc e))].

Definition screenshot_file (sanitized_name : string) (timestamp : N) : string :=
  "screenshot_" +:+ sanitized_name +:+ "_" +:+ Py.str_of_N timestamp +:+ ".png".

Definition capture_screenshot (name : string) (subfolder : string) : M unit :=
  try_except
    (timestamp ← time_now;
     let screenshots_dir := Py.path_join "screenshots" subfolder in
     create_directory screenshots_dir;;
     let sanitized_name := sanitize_title name in
     let screenshot_path :=
       Py.path_join screenshots_dir (screenshot_file sanitized_name timestamp) in
     driver_save_screenshot screenshot_path;;
     print ("Screenshot saved to " +:+ screenshot_path))
    [(is_Exception, fun e =>
        print ("Failed to capture screenshot " +:+ quoted name +:+ ": " +:+ str_exc e))].

Definition log_available_buttons (job_card : Elem) (job_title : string) : M unit :=
  try_except
    (buttons ← find_elements (Within job_card) By_TAG_NAME "button";
     button_texts ← mapM text_of buttons;
     print ("Available buttons for job " +:+ quoted job_title +:+ ": "
            +:+ repr_list button_texts);;
     let sanitized_title := sanitize_title job_title in
     let screenshot_path :=
       Py.path_join (Py.path_join "screenshots" "missing_easy_apply")
                    ("screenshot_job_" +:+ sanitized_title +:+ ".png") in
     driver_save_screenshot screenshot_path;;
     print ("Screenshot saved to " +:+ screenshot_path))
    [(is_Exception, fun e =>
        print ("Error logging available buttons for " +:+ quoted job_title +:+ ": "
               +:+ str_exc e))].

(** [driver.switch_to.window(original_window)]: the local is read first. *)
Definition switch_to_original_window : M unit :=
  v ← gets original_window;
  match v with
  | Some h => driver_switch_to_window h
  | None => raise (UnboundLocalError "original_window")
  end.

Definition closed_message (job_title : string) : string :=
  "Closed new window and switched back to original window after processing " +:+ job_title.

(** The [finally] block of [apply_to_job]. *)
Definition apply_to_job_cleanup (job_title : string) : M unit :=
  handles_now ← driver_window_handles;
  if (1 <? length handles_now)%nat
  then
    driver_close;;
    switch_to_original_window;;
    print (closed_message job_title)
  else mret tt.

(** ** Revision 20240925103923 (the last one) *)

Module Rev0925.

Section Functions.

(** The module-level names read from [config.ini]. *)
Variable SEARCH_TERMS : string.
Variables MIN_PAUSE MAX_PAUSE : Z.

Definition expected_params : string := "filters.easyApply=true".

Definition filtered_url : string :=
  "https://www.dice.com/jobs?q=" +:+ SEARCH_TERMS
    +:+ "&pageSize=1000&filters.workplaceTypes=Remote&filters.easyApply=true".

(** The [try] block of [activate_easy_apply_filter]. *)
Definition activate_easy_apply_filter_body : M unit :=
  current_url ← driver_current_url;
  if negb (Py.contains expected_params current_url)
  then
    print ("URL does not contain expected parameters: " +:+ expected_params);;
    driver_get filtered_url;;
    wait_until_elements 20 By_XPATH xp_search_cards;;
    print "Navigated to filtered URL."
  else
    print "URL contains the expected filter parameters.".

Definition activate_easy_apply_filter : M unit :=
  try_except activate_easy_apply_filter_body
    [(is_NoSuchElement_or_Timeout, fun e =>
        print ("Error activating " +:+ quoted "Easy Apply" +:+ " filter: " +:+ str_exc e);;
        capture_screenshot "error_activating_easy_apply_filter" "filters";;
        driver_quit;;
        exit 1);
     (is_Exception, fun e =>
        print ("Unexpected error activating 'Easy Apply' filter: " +:+ str_exc e);;
        capture_screenshot "unexpected_error_easy_apply_filter" "filters";;
        driver_quit;;
        exit 1)].

(** The [try] block of [apply_to_job], after the test for a job already
    applied to. *)
Definition apply_to_job_attempt (job_card : Elem) (job_title : string)
    (applied_jobs : nat) : M unit :=
  print ("Scrolling into view for job: " +:+ job_title);;
  execute_script js_scroll_center job_card;;
  sleep 1;;
  print ("Locating job title link for: " +:+ job_title);;
  title_element ← find_element (Within job_card) By_XPATH xp_card_title_link;
  print ("Waiting for job title to be clickable for: " +:+ job_title);;
  wait_until_element 20 element_to_be_clickable By_XPATH xp_card_title_link;;
  try_except
    (print ("Attempting to click on job title: " +:+ job_title);;
     click title_element;;
     print ("Clicked on job title: " +:+ job_title))
    [(is_Intercepted_or_NotInteractable, fun e =>
        print ("Click intercepted or element not interactable for job title: "
               +:+ job_title +:+ ". Trying JavaScript click.");;
        execute_script js_click title_element)];;
  original ← driver_current_window_handle;
  assign_original_window original;;
  windows_after_click ← driver_window_handles;
  (if (1 <? length windows_after_click)%nat
   then
     new_window ← first_other original windows_after_click;
     driver_switch_to_window new_window;;
     print ("Switched to new window for job: " +:+ job_title)
   else
     print ("Job details opened in the same window for job: " +:+ job_title));;
  print ("Waiting for job details to load for: " +:+ job_title);;
  wait_until_element 20 presence_of_element_located By_XPATH xp_job_details;;
  sleep 7;;
  print ("Job details loaded for: " +:+ job_title);;
  print ("Locating " +:+ quoted "Easy Apply" +:+ " button for job: " +:+ job_title);;
  easy_apply_button ← find_element Document By_CSS_SELECTOR css_apply_button_wc;
  execute_script js_scroll_true easy_apply_button;;
  sleep 7;;
  shadow_root ← execute_script_shadow_root easy_apply_button;
  apply_now_button ← shadow_find_element shadow_root By_CSS_SELECTOR css_btn_primary;
  print "Easy Apply button found";;
  try_except
    (sleep 5;;
     click apply_now_button;;
     print "Clicked 'Easy Apply' button.")
    [(is_Exception, fun e =>
        print ("Click failed: " +:+ str_exc e +:+ ", trying JavaScript click.");;
        execute_script js_click apply_now_button;;
        print "Clicked 'Easy Apply' button using JavaScript.")];;
  print "Waiting for navigation to the application page.";;
  wait_until_url_contains 20 "/apply";;
  print "Navigated to application page.";;
  print ("Waiting for " +:+ quoted "Next" +:+ " button on the application page.");;
  next_button ← wait_until_element 20 element_to_be_clickable By_XPATH xp_next;
  print (quoted "Next" +:+ " button found.");;
  sleep 5;;
  click next_button;;
  sleep 5;;
  print ("Clicked " +:+ quoted "Next" +:+ " button.");;
  print ("Waiting for " +:+ quoted "Submit" +:+ " button.");;
  sleep 5;;
  submit_button ← wait_until_element 20 element_to_be_clickable By_XPATH xp_submit;
  print (quoted "Submit" +:+ " button found.");;
  click submit_button;;
  print ("Successfully applied to " +:+ job_title);;
  set_add applied_jobs job_title;;
  sleep 10;;
  handles_now ← driver_window_handles;
  if (1 <? length handles_now)%nat
  then
    driver_close;;
    switch_to_original_window;;
    print (closed_message job_title)
  else
    driver_back;;
    print ("Navigated back to job listings after processing " +:+ job_title).

(** The whole [try] block: [return] leaves it at once. *)
Definition apply_to_job_body (job_card : Elem) (job_title : string)
    (applied_jobs : nat) : M unit :=
  already ← set_contains applied_jobs job_title;
  if (already : bool)
  then print ("Skipping already applied job: " +:+ job_title)
  else apply_to_job_attempt job_card job_title applied_jobs.

Definition apply_to_job_handlers (job_card : Elem) (job_title : string)
    : list (Clause unit) :=
  [(is_NoSuchElement_or_Timeout, fun e =>
      print ("Error applying to " +:+ quoted job_title +:+ ": " +:+ str_exc e);;
      log_available_buttons job_card job_title;;
      capture_screenshot ("error_applying_" +:+ sanitize_title job_title)
                         "easy_apply_errors");
   (is_Exception, fun e =>
      print ("Failed to apply to " +:+ quoted job_title +:+ ": " +:+ str_exc e);;
      capture_screenshot ("error_applying_" +:+ sanitize_title job_title)
                         "easy_apply_errors")].

(** The [try ... except] part of [apply_to_job], without its [finally]. *)
Definition apply_to_job_guarded (job_card : Elem) (job_title : string)
    (applied_jobs : nat) : M unit :=
  try_except (apply_to_job_body job_card job_title applied_jobs)
             (apply_to_job_handlers job_card job_title).

Definition apply_to_job (job_card : Elem) (job_title : string) (applied_jobs : nat)
    : M unit :=
  unbind_original_window;;
  try_finally (apply_to_job_guarded job_card job_title applied_jobs)
              (apply_to_job_cleanup job_title).

(** The pause between two applications. *)
Definition pause_between_applications : M unit :=
  PAUSE_DURATION ← randint MIN_PAUSE MAX_PAUSE;
  print ("Waiting for " +:+ Py.str_of_Z PAUSE_DURATION
         +:+ " seconds before the next application...");;
  sleep_as Pause PAUSE_DURATION.

(** The [try] block at the head of the loop body: the title of the card,
    or [None] when the [except] clause ends the iteration with [continue]. *)
Definition job_title_of (index : N) (job_card : Elem) : M (option string) :=
  try_except
    (print ("Processing job " +:+ Py.str_of_N index +:+ ".");;
     title_element ← find_element (Within job_card) By_XPATH xp_card_title_link;
     title_text ← text_of title_element;
     let job_title := Py.strip title_text in
     print ("Job " +:+ Py.str_of_N index +:+ ": Found title: " +:+ job_title);;
     mret (Some job_title))
    [(is_NoSuchElementException, fun _ =>
        print ("Job " +:+ Py.str_of_N index +:+ ": Title element not found.");;
        job_card_html ← get_attribute job_card "outerHTML";
        print ("Job " +:+ Py.str_of_N index +:+ " HTML: " +:+ job_card_html);;
        capture_screenshot ("job_" +:+ Py.str_of_N index +:+ "_no_title") "job_card_errors";;
        mret None)].

Definition loop_body (applied_jobs : nat) (index : N) (job_card : Elem) : M unit :=
  found ← job_title_of index job_card;
  match found with
  | None => mret tt
  | Some job_title =>
      print ("Job " +:+ Py.str_of_N index +:+ ": Title=" +:+ quoted job_title);;
      print ("Applying to job: " +:+ job_title);;
      apply_to_job job_card job_title applied_jobs;;
      pause_between_applications
  end.

(** [for index, job_card in enumerate(job_cards, start=1)] *)
Fixpoint main_loop (applied_jobs : nat) (index : N) (job_cards : list Elem) : M unit :=
  match job_cards with
  | [] => mret tt
  | job_card :: rest =>
      loop_body applied_jobs index job_card;;
      main_loop applied_jobs (index + 1)%N rest
  end.

Definition main : M unit :=
  applied_jobs ← set_new;
  try_finally
    (try_except
       (print "Navigating to Dice homepage.";;
        driver_get "https://www.dice.com/";;
        print "Waiting for search field.";;
        search_field ← wait_until_element 20 presence_of_element_located
                         By_ID "typeaheadInput";
        clear search_field;;
        send_keys search_field SEARCH_TERMS;;
        print ("Entered search terms: " +:+ SEARCH_TERMS);;
        print "Locating search button.";;
        search_button ← find_element Document By_ID "submitSearch-button";
        click search_button;;
        print "Clicked search button.";;
        activate_easy_apply_filter;;
        sleep 3;;
        print "Locating job cards.";;
        job_cards ← find_elements Document By_XPATH xp_search_cards;
        print ("Found " +:+ Py.str_of_N (N.of_nat (length job_cards)) +:+ " job postings.");;
        main_loop applied_jobs 1%N job_cards;;
        print "Job application process completed.")
       [(is_Exception, fun e =>
           print ("An error occurred in main(): " +:+ str_exc e);;
           capture_screenshot "main_exception" "main_errors")])
    driver_quit.

End Functions.

(** The pause range, read inside [try ... except KeyError ... except ValueError]. *)
Definition read_pause_range (cfg : gmap string string) : M (Z * Z) :=
  try_except
    (min_text ← config_get cfg "PauseDurationMin";
     MIN_PAUSE ← py_int min_text;
     max_text ← config_get cfg "PauseDurationMax";
     MAX_PAUSE ← py_int max_text;
     mret (MIN_PAUSE, MAX_PAUSE))
    [(is_KeyError, fun e =>
        print ("Configuration error: Missing key " +:+ str_exc e);;
        exit 1);
     (is_ValueError, fun _ =>
        print "Configuration error: Pause durations must be integers representing seconds.";;
        exit 1)].

(** [webdriver.Chrome(options=chrome_options)] and what surrounds it. *)
Definition launch_browser : M unit :=
  try_except
    (perform Launch;;
     print "Initialized Chrome WebDriver.")
    [(is_WebDriverException, fun e =>
        print ("Error initializing Chrome WebDriver: " +:+ str_exc e);;
        exit 1)];;
  driver_maximize_window;;
  print "Maximized browser window.".

(** The script, run as [__main__], on the [DEFAULT] section [cfg] of
    [config.ini]. *)
Definition script (cfg : gmap string string) : M unit :=
  emit (ConfigRead "config.ini");;
  SEARCH_TERMS ← config_get cfg "SearchTerms";
  EMAIL ← config_get cfg "Email";
  PASSWORD ← config_get cfg "Password";
  range ← read_pause_range cfg;
  launch_browser;;
  main SEARCH_TERMS (fst range) (snd range).

End Rev0925.

(** ** Revision 20240921144401: [apply_to_job]

    In this revision the body of [apply_to_job] is there twice: the [try]
    statement is followed by a second copy of itself, which differs in the
    locator of the Next button only.  A [return] in the first copy ends the
    function; otherwise the second copy runs after the first. *)

Module Rev0921.

Section Functions.

Variable RESUME_PATH : string.

(** How a [try] statement of the function is left. *)
Inductive Flow := Returned | Completed.

Definition apply_to_job_attempt (next_by : By) (next_sel : string)
    (job_card : Elem) (job_title : string) (applied_jobs : nat) : M unit :=
  print ("Scrolling into view for job: " +:+ job_title);;
  execute_script js_scroll_center job_card;;
  sleep 1;;
  print ("Locating job title link for: " +:+ job_title);;
  title_element ← find_element (Within job_card) By_XPATH xp_card_title_link;
  print ("Waiting for job title to be clickable for: " +:+ job_title);;
  wait_until_element 20 element_to_be_clickable By_XPATH xp_card_title_link;;
  try_except
    (print ("Attempting to click on job title: " +:+ job_title);;
     click title_element;;
     print ("Clicked on job title: " +:+ job_title))
    [(is_Intercepted_or_NotInteractable, fun e =>
        print ("Click intercepted or element not interactable for job title: "
               +:+ job_title +:+ ". Trying JavaScript click.");;
        execute_script js_click title_element)];;
  original ← driver_current_window_handle;
  assign_original_window original;;
  windows_after_click ← driver_window_handles;
  (if (1 <? length windows_after_click)%nat
   then
     new_window ← first_other original windows_after_click;
     driver_switch_to_window new_window;;
     print ("Switched to new window for job: " +:+ job_title)
   else
     print ("Job details opened in the same window for job: " +:+ job_title));;
  print ("Waiting for job details to load for: " +:+ job_title);;
  wait_until_element 20 presence_of_element_located By_XPATH xp_job_details;;
  sleep 2;;
  print ("Job details loaded for: " +:+ job_title);;
  print ("Locating " +:+ quoted "Easy Apply" +:+ " button for job: " +:+ job_title);;
  easy_apply_button ← find_element Document By_CSS_SELECTOR css_apply_button_wc;
  execute_script js_scroll_true easy_apply_button;;
  sleep 1;;
  shadow_root ← execute_script_shadow_root easy_apply_button;
  apply_now_button ← shadow_find_element shadow_root By_CSS_SELECTOR css_btn_primary;
  print "Easy Apply button found";;
  try_except
    (click apply_now_button;;
     print "Clicked 'Easy Apply' button.")
    [(is_Exception, fun e =>
        print ("Click failed: " +:+ str_exc e +:+ ", trying JavaScript click.");;
        execute_script js_click apply_now_button;;
        print "Clicked 'Easy Apply' button using JavaScript.")];;
  print "Waiting for navigation to the application page.";;
  wait_until_url_contains 20 "/apply";;
  print "Navigated to application page.";;
  print ("Waiting for " +:+ quoted "Next" +:+ " button on the application page.");;
  next_button ← wait_until_element 20 element_to_be_clickable next_by next_sel;
  print (quoted "Next" +:+ " button found.");;
  click next_button;;
  print ("Clicked " +:+ quoted "Next" +:+ " button.");;
  print "Waiting for resume upload field.";;
  upload_field ← wait_until_element 20 presence_of_element_located By_XPATH xp_file_input;
  print "Resume upload field found.";;
  send_keys upload_field RESUME_PATH;;
  print ("Uploaded resume for job: " +:+ job_title);;
  print ("Waiting for " +:+ quoted "Submit" +:+ " button.");;
  submit_button ← wait_until_element 20 element_to_be_clickable By_XPATH xp_submit;
  print (quoted "Submit" +:+ " button found.");;
  click submit_button;;
  print ("Successfully applied to " +:+ job_title);;
  set_add applied_jobs job_title;;
  handles_now ← driver_window_handles;
  if (1 <? length handles_now)%nat
  then
    driver_close;;
    switch_to_original_window;;
    print (closed_message job_title)
  else
    driver_back;;
    print ("Navigated back to job listings after processing " +:+ job_title).

Definition apply_to_job_body (next_by : By) (next_sel : string)
    (job_card : Elem) (job_title : string) (applied_jobs : nat) : M Flow :=
  already ← set_contains applied_jobs job_title;
  if (already : bool)
  then print ("Skipping already applied job: " +:+ job_title);; mret Returned
  else apply_to_job_attempt next_by next_sel job_card job_title applied_jobs;;
       mret Completed.

Definition apply_to_job_handlers (job_card : Elem) (job_title : string)
    : list (Clause Flow) :=
  [(is_NoSuchElement_or_Timeout, fun e =>
      print ("Error applying to " +:+ quoted job_title +:+ ": " +:+ str_exc e);;
      log_available_buttons job_card job_title;;
      capture_screenshot ("error_applying_" +:+ sanitize_title job_title)
                         "easy_apply_errors";;
      mret Completed);
   (is_Exception, fun e =>
      print ("Failed to apply to " +:+ quoted job_title +:+ ": " +:+ str_exc e);;
      capture_screenshot ("error_applying_" +:+ sanitize_title job_title)
                         "easy_apply_errors";;
      mret Completed)].

(** One [try ... except ... finally] statement of the function. *)
Definition apply_to_job_try (next_by : By) (next_sel : string)
    (job_card : Elem) (job_title : string) (applied_jobs : nat) : M Flow :=
  try_finally
    (try_except (apply_to_job_body next_by next_sel job_card job_title applied_jobs)
                (apply_to_job_handlers job_card job_title))
    (apply_to_job_cleanup job_title).

Definition apply_to_job (job_card : Elem) (job_title : string) (applied_jobs : nat)
    : M unit :=
  unbind_original_window;;
  first ← apply_to_job_try By_CSS_SELECTOR css_btn_next job_card job_title applied_jobs;
  match first with
  | Returned => mret tt
  | Completed =>
      apply_to_job_try By_XPATH xp_next job_card job_title applied_jobs;;
      mret tt
  end.

End Functions.

End Rev0921.

(** ** Revision 20240920204534 (the first one) *)

Module Rev0920.

Definition log_file : string := "application_log.txt".

(** [logging.info(msg)] and [logging.error(msg)], with the root logger
    writing to [log_file]. *)
Definition logging_info (msg : string) : M unit :=
  emit (LogWrite log_file ("INFO:root:" +:+ msg)).
Definition logging_error (msg : string) : M unit :=
  emit (LogWrite log_file ("ERROR:root:" +:+ msg)).

Section Functions.

Variables SEARCH_TERMS RESUME_PATH : string.
Variable PAUSE_DURATION : Z.
Variables EMAIL PASSWORD : string.

Definition login_to_dice : M unit :=
  driver_get "https://www.dice.com/dashboard/login";;
  sleep 3;;
  email_field ← find_element Document By_NAME "email";
  clear email_field;;
  send_keys email_field EMAIL;;
  continue_button ← find_element Document By_XPATH xp_sign_in;
  click continue_button;;
  sleep 3;;
  password_field ← find_element Document By_NAME "password";
  clear password_field;;
  send_keys password_field PASSWORD;;
  sign_in_button ← find_element Document By_XPATH xp_submit_password;
  click sign_in_button;;
  sleep 5.

Definition apply_to_job (job_link : string) : M unit :=
  driver_get job_link;;
  sleep 2;;
  try_except
    (apply_button ← find_element Document By_XPATH xp_easy_apply;
     click apply_button;;
     sleep 2;;
     upload_field ← find_element Document By_NAME "resume";
     send_keys upload_field RESUME_PATH;;
     sleep 2;;
     submit_button ← find_element Document By_XPATH xp_submit;
     click submit_button;;
     logging_info ("Successfully applied to " +:+ job_link);;
     print ("Successfully applied to " +:+ job_link))
    [(is_Exception, fun e =>
        logging_error ("Failed to apply to " +:+ job_link +:+ ": " +:+ str_exc e);;
        print ("Failed to apply to " +:+ job_link +:+ ": " +:+ str_exc e))].

(** ['Angular' in job_title and 'Senior Frontend Developer' in job_title] *)
Definition wanted (job_title : string) : bool :=
  Py.contains "Angular" job_title && Py.contains "Senior Frontend Developer" job_title.

(** The body of [for index, job in enumerate(jobs)]. *)
Definition loop_body (job : Elem) : M unit :=
  job_title ← text_of job;
  if wanted job_title
  then
    print ("Applying to job: " +:+ job_title);;
    job_link ← get_attribute job "href";
    apply_to_job job_link;;
    print ("Waiting for " +:+ Py.str_of_Z PAUSE_DURATION
           +:+ " seconds before the next application...");;
    sleep_as Pause PAUSE_DURATION
  else
    print ("Skipping job: " +:+ job_title).

Fixpoint main_loop (jobs : list Elem) : M unit :=
  match jobs with
  | [] => mret tt
  | job :: rest => loop_body job;; main_loop rest
  end.

Definition main : M unit :=
  login_to_dice;;
  driver_get "https://www.dice.com/";;
  sleep 3;;
  search_field ← find_element Document By_ID "typeaheadInput";
  clear search_field;;
  send_keys search_field SEARCH_TERMS;;
  search_button ← find_element Document By_ID "submitSearch-button";
  click search_button;;
  sleep 5;;
  jobs ← find_elements Document By_XPATH xp_title_links;
  main_loop jobs;;
  print "Job application process completed.".

End Functions.

(** The script, run as [__main__]. *)
Definition script (cfg : gmap string string) : M unit :=
  emit (ConfigRead "config.ini");;
  SEARCH_TERMS ← config_get cfg "SearchTerms";
  RESUME_PATH ← config_get cfg "ResumePath";
  pause_text ← config_get cfg "PauseDuration";
  PAUSE_DURATION ← py_int pause_text;
  EMAIL ← config_get cfg "Email";
  PASSWORD ← config_get cfg "Password";
  emit (LogOpen log_file);;
  perform Launch;;
  driver_maximize_window;;
  try_finally (main SEARCH_TERMS RESUME_PATH PAUSE_DURATION EMAIL PASSWORD)
              driver_quit.

End Rev0920.

(** ** Specifications: what a run logs and how it leaves the world *)

(** [within R phi m]: whatever the world answers, every call that [m] logs
    satisfies [phi], and the world after [m] is related by [R] to the world
    before. *)
Definition within {A} (R : World -> World -> Prop) (phi : Event -> Prop) (m : M A) : Prop :=
  forall w, R w (post (m w)) /\ Forall phi (log (m w)).

(** [never_raises m]: [m] returns normally in every world. *)
Definition never_raises {A} (m : M A) : Prop :=
  forall w, exists a, res (m w) = Ok a.

(** Hoare triples over the world and the log written so far. *)
Definition Assertion : Type := World -> list Event -> Prop.

Definition hoare {A} (P : Assertion) (m : M A) (Q : Result A -> Assertion) : Prop :=
  forall w t, P w t -> Q (res (m w)) (post (m w)) (t ++ log (m w)).

(** [stable I phi R]: the assertion [I] survives any step that logs calls
    satisfying [phi] and changes the world along [R]. *)
Definition stable (I : Assertion) (phi : Event -> Prop) (R : World -> World -> Prop) : Prop :=
  forall w t w' t', I w t -> R w w' -> Forall phi t' -> I w' (t ++ t').

(** Relations between the worlds before and after. *)
Definition any_world : World -> World -> Prop := fun _ _ => True.
Definition same_heap : World -> World -> Prop := fun w w' => heap w' = heap w.
Definition same_windows : World -> World -> Prop :=
  fun w w' => windows w' = windows w /\ focus w' = focus w.
Definition heap_grows : World -> World -> Prop :=
  fun w w' => forall l, set_lookup l w ⊆ set_lookup l w'.

Definition any_event : Event -> Prop := fun _ => True.

Definition emits {A} (phi : Event -> Prop) (m : M A) : Prop := within any_world phi m.
Definition keeps {A} (R : World -> World -> Prop) (m : M A) : Prop := within R any_event m.

(** A relation that looks at the Python sets only, and one that looks at
    the sets and the windows only. *)
Definition heap_only (R : World -> World -> Prop) : Prop :=
  forall w w', heap w' = heap w -> R w w'.

Definition frame_only (R : World -> World -> Prop) : Prop :=
  forall w w',
    heap w' = heap w -> windows w' = windows w -> focus w' = focus w -> R w w'.

(** The calls that leave the windows of the browser as they are. *)
Definition window_neutral (c : Call) : bool :=
  match c with
  | Launch | Get _ | Click _ | ExecuteScript _ _ | Back | Close | SwitchToWindow _
  | Quit => false
  | _ => true
  end.

(** [precedes a b t]: in the log [t], every call satisfying [b] comes after
    some call satisfying [a]. *)
Definition precedes (a b : Event -> Prop) (t : list Event) : Prop :=
  forall t1 e t2, t = t1 ++ e :: t2 -> b e -> Exists a t1.

(** *** Classes of calls *)

Definition on_locator (loc : Locator) (e : Elem) : Prop := el_loc e = loc.

(** A shadow root is evaluated. *)
Definition is_shadow_eval (e : Event) : bool :=
  match ev_call e with
  | ExecuteScript s _ => String.eqb s js_shadow_root
  | _ => false
  end.

(** An element is looked up inside a shadow root. *)
Definition is_shadow_find (e : Event) : bool :=
  match ev_call e with
  | FindElement (InShadow _) _ | FindElements (InShadow _) _ => true
  | _ => false
  end.

(** The two shadow-DOM accesses of [apply_to_job]: the shadow root of the
    [apply-button-wc] element, and the [button.btn.btn-primary] button in it. *)
Definition sanctioned_shadow_access (e : Event) : Prop :=
  match ev_call e with
  | ExecuteScript s host =>
      s = js_shadow_root -> el_loc host = (By_CSS_SELECTOR, css_apply_button_wc)
  | FindElement (InShadow r) loc =>
      loc = (By_CSS_SELECTOR, css_btn_primary)
      /\ el_loc (sr_host r) = (By_CSS_SELECTOR, css_apply_button_wc)
  | FindElements (InShadow _) _ => False
  | _ => True
  end.

Definition no_shadow_eval (e : Event) : Prop := is_shadow_eval e = false.

(** The button found in the shadow root is clicked, natively or by script. *)
Definition clicks_shadow_button (e : Event) : Prop :=
  match ev_call e with
  | Click b => el_loc b = (By_CSS_SELECTOR, css_btn_primary)
  | ExecuteScript s b => s = js_click /\ el_loc b = (By_CSS_SELECTOR, css_btn_primary)
  | _ => False
  end.

(** The Submit button is clicked and the click returns. *)
Definition submit_clicked (e : Event) : Prop :=
  match ev_call e with
  | Click b => el_loc b = (By_XPATH, xp_submit) /\ ev_ok e = true
  | _ => False
  end.

(** [path] is sent to a file-upload input: [By.NAME 'resume'] in the first
    revision, [//input[@type="file"]] later. *)
Definition resume_sent (path : string) (e : Event) : Prop :=
  match ev_call e with
  | SendKeys f text =>
      (el_loc f = (By_NAME, "resume") \/ el_loc f = (By_XPATH, xp_file_input))
      /\ text = path /\ ev_ok e = true
  | _ => False
  end.

Definition is_send_keys (e : Event) : bool :=
  match ev_call e with SendKeys _ _ => true | _ => false end.

Definition no_send_keys (e : Event) : Prop := is_send_keys e = false.

Definition not_submit_click (e : Event) : Prop :=
  match ev_call e with
  | Click b => el_loc b <> (By_XPATH, xp_submit)
  | _ => True
  end.

(** A command sent to the browser. *)
Definition is_driver_call (c : Call) : bool :=
  match c with
  | ConfigRead _ | LogOpen _ | LogWrite _ _ | MakeDirs _ | Print _ | Sleep _
  | Pause _ | RandInt _ _ => false
  | _ => true
  end.

(** *** Files *)

(** Names made of alphanumeric characters and underscores. *)
Fixpoint plain_name (s : string) : bool :=
  match s with
  | EmptyString => true
  | String c s' => (Py.isalnum c || Ascii.eqb c "_") && plain_name s'
  end.

(** [screenshots/<subfolder>/<file>.png] *)
Definition screenshot_path (p : string) : Prop :=
  exists sub file,
    p = "screenshots/" +:+ sub +:+ "/" +:+ file +:+ ".png"
    /\ plain_name sub = true /\ plain_name file = true.

(** [screenshots/<subfolder>] *)
Definition screenshot_dir (p : string) : Prop :=
  exists sub, p = "screenshots/" +:+ sub /\ plain_name sub = true.

(** Every file written is the log file or a screenshot under [screenshots],
    every directory created is a subfolder of [screenshots]. *)
Definition writes_log_or_screenshot (e : Event) : Prop :=
  match ev_call e with
  | LogOpen f | LogWrite f _ => f = "application_log.txt"
  | SaveScreenshot p => screenshot_path p
  | MakeDirs p => screenshot_dir p
  | _ => True
  end.

(** *** Pauses *)

Definition pause_within (lo hi : Z) (e : Event) : Prop :=
  match ev_call e with
  | Pause d => lo <= d <= hi
  | _ => True
  end.

Definition is_launch (e : Event) : bool :=
  match ev_call e with Launch => true | _ => false end.

Definition no_launch (e : Event) : Prop := is_launch e = false.

(** ** [sanitize_title], read from its description *)

Fixpoint map_chars (f : ascii -> ascii) (s : string) : string :=
  match s with
  | EmptyString => EmptyString
  | String c s' => String (f c) (map_chars f s')
  end.

Fixpoint all_chars (p : ascii -> bool) (s : string) : bool :=
  match s with
  | EmptyString => true
  | String c s' => p c && all_chars p s'
  end.

Definition is_space_char (c : ascii) : bool := Ascii.eqb c " ".
Definition is_space_or_underscore (c : ascii) : bool := Ascii.eqb c " " || Ascii.eqb c "_".
Definition space_to_underscore (c : ascii) : ascii := if Ascii.eqb c " " then "_"%char else c.

(** Every character that is not alphanumeric, a space or an underscore is
    removed; the trailing spaces and underscores are stripped; each space
    left becomes an underscore. *)
Definition sanitize_title_as_described (title : string) : string :=
  map_chars space_to_underscore
    (Py.rstrip_with is_space_or_underscore (Py.join_if sanitize_keep title)).

(** The same, with the trailing spaces stripped and the trailing underscores
    kept. *)
Definition sanitize_title_in_words (title : string) : string :=
  map_chars space_to_underscore
    (Py.rstrip_with is_space_char (Py.join_if sanitize_keep title)).

(** ** The calls each revision can make

    [expected_call] lists, constructor by constructor, the calls that can
    appear in the log of a run, with what is known of their arguments. *)

Definition loc_typeahead : Locator := (By_ID, "typeaheadInput").
Definition loc_submit_search : Locator := (By_ID, "submitSearch-button").
Definition loc_search_cards : Locator := (By_XPATH, xp_search_cards).
Definition loc_card_title_link : Locator := (By_XPATH, xp_card_title_link).
Definition loc_title_links : Locator := (By_XPATH, xp_title_links).
Definition loc_job_details : Locator := (By_XPATH, xp_job_details).
Definition loc_apply_button_wc : Locator := (By_CSS_SELECTOR, css_apply_button_wc).
Definition loc_btn_primary : Locator := (By_CSS_SELECTOR, css_btn_primary).
Definition loc_next : Locator := (By_XPATH, xp_next).
Definition loc_submit : Locator := (By_XPATH, xp_submit).
Definition loc_buttons : Locator := (By_TAG_NAME, "button").
Definition loc_email : Locator := (By_NAME, "email").
Definition loc_password : Locator := (By_NAME, "password").
Definition loc_sign_in : Locator := (By_XPATH, xp_sign_in).
Definition loc_submit_password : Locator := (By_XPATH, xp_submit_password).
Definition loc_easy_apply : Locator := (By_XPATH, xp_easy_apply).
Definition loc_resume : Locator := (By_NAME, "resume").

Definition expected_call_0925 (SEARCH_TERMS : string) (MIN_PAUSE MAX_PAUSE : Z)
    (e : Event) : Prop :=
  match ev_call e with
  | ConfigRead f => f = "config.ini"
  | LogOpen _ | LogWrite _ _ => False
  | Launch | MaximizeWindow | CurrentUrl | CurrentWindowHandle | WindowHandles
  | SwitchToWindow _ | Close | Back | Quit | Print _ => True
  | Get url => url = "https://www.dice.com/" \/ url = Rev0925.filtered_url SEARCH_TERMS
  | FindElement Document loc => loc = loc_submit_search \/ loc = loc_apply_button_wc
  | FindElement (Within card) loc => loc = loc_card_title_link
  | FindElement (InShadow r) loc =>
      loc = loc_btn_primary /\ el_loc (sr_host r) = loc_apply_button_wc
  | FindElements Document loc => loc = loc_search_cards
  | FindElements (Within card) loc => loc = loc_buttons
  | FindElements (InShadow _) _ => False
  | Click b =>
      In (el_loc b) [loc_submit_search; loc_card_title_link; loc_btn_primary;
                     loc_next; loc_submit]
  | Clear b => el_loc b = loc_typeahead
  | SendKeys b text => el_loc b = loc_typeahead /\ text = SEARCH_TERMS
  | Text b => el_loc b = loc_card_title_link \/ el_loc b = loc_buttons
  | GetAttribute b name => name = "outerHTML"
  | ExecuteScript s arg =>
      s = js_scroll_center
      \/ (s = js_click /\ In (el_loc arg) [loc_card_title_link; loc_btn_primary])
      \/ (s = js_scroll_true /\ el_loc arg = loc_apply_button_wc)
      \/ (s = js_shadow_root /\ el_loc arg = loc_apply_button_wc)
  | WaitUntil timeout c =>
      timeout = 20
      /\ In c [presence_of_element_located loc_typeahead;
               presence_of_all_elements_located loc_search_cards;
               element_to_be_clickable loc_card_title_link;
               presence_of_element_located loc_job_details;
               url_contains "/apply";
               element_to_be_clickable loc_next;
               element_to_be_clickable loc_submit]
  | SaveScreenshot p => screenshot_path p
  | MakeDirs p => screenshot_dir p
  | Sleep d => In d [1; 3; 5; 7; 10]
  | Pause d => MIN_PAUSE <= d <= MAX_PAUSE
  | RandInt a b => a = MIN_PAUSE /\ b = MAX_PAUSE
  end.

Definition expected_call_0920 (SEARCH_TERMS RESUME_PATH : string) (PAUSE_DURATION : Z)
    (EMAIL PASSWORD : string) (e : Event) : Prop :=
  match ev_call e with
  | ConfigRead f => f = "config.ini"
  | LogOpen f | LogWrite f _ => f = Rev0920.log_file
  | Launch | MaximizeWindow | Quit | Print _ | Get _ => True
  | FindElement sc loc =>
      sc = Document
      /\ In loc [loc_email; loc_sign_in; loc_password; loc_submit_password; loc_typeahead;
                 loc_submit_search; loc_easy_apply; loc_resume; loc_submit]
  | FindElements sc loc => sc = Document /\ loc = loc_title_links
  | Click b =>
      In (el_loc b) [loc_sign_in; loc_submit_password; loc_submit_search; loc_easy_apply;
                     loc_submit]
  | Clear b => In (el_loc b) [loc_email; loc_password; loc_typeahead]
  | SendKeys b text =>
      In (el_loc b, text) [(loc_email, EMAIL); (loc_password, PASSWORD);
                           (loc_typeahead, SEARCH_TERMS); (loc_resume, RESUME_PATH)]
  | Text b => el_loc b = loc_title_links
  | GetAttribute b name => el_loc b = loc_title_links /\ name = "href"
  | Sleep d => In d [2; 3; 5]
  | Pause d => d = PAUSE_DURATION
  | CurrentUrl | ExecuteScript _ _ | WaitUntil _ _ | CurrentWindowHandle | WindowHandles
  | SwitchToWindow _ | Close | Back | SaveScreenshot _ | MakeDirs _ | RandInt _ _ => False
  end.

(** What [config.ini] gives for a key, and for a key read as an integer. *)
Definition config_text (cfg : gmap string string) (key : string) : string :=
  default "" (cfg !! key).

Definition config_int (cfg : gmap string string) (key : string) : option Z :=
  cfg !! key ≫= Py.int.

Definition config_Z (cfg : gmap string string) (key : string) : Z :=
  default 0 (config_int cfg key).

(** [wp m Q w t]: run from the world [w], with [t] logged so far, [m] ends in
    a result, a world and a log that satisfy [Q]. *)
Definition wp {A} (m : M A) (Q : Result A -> Assertion) : Assertion :=
  fun w t => Q (res (m w)) (post (m w)) (t ++ log (m w)).

(** [raises psi m]: every exception that leaves [m] satisfies [psi]. *)
Definition raises {A} (psi : Exc -> Prop) (m : M A) : Prop :=
  forall w e, res (m w) = Raised e -> psi e.

Definition no_exception : Exc -> Prop := fun _ => False.
Definition an_Exception : Exc -> Prop := fun e => is_Exception e = true.

(** *** The filter *)

(** The URL of the focused window contains ['filters.easyApply=true']. *)
Definition url_has_filter (w : World) : bool :=
  match current_url_of w with
  | Some u => Py.contains Rev0925.expected_params u
  | None => false
  end.

Definition is_screenshot_attempt (e : Event) : bool :=
  match ev_call e with SaveScreenshot _ => true | _ => false end.

Definition is_get (url : string) (e : Event) : Prop :=
  ev_call e = Get url /\ ev_ok e = true.

Definition is_wait_for_cards (e : Event) : Prop :=
  ev_call e = WaitUntil 20 (presence_of_all_elements_located loc_search_cards)
  /\ ev_ok e = true.

(** *** Errors of an attempt *)

(** The message of an [except] clause of [apply_to_job]. *)
Definition is_error_print (job_title : string) (e : Event) : Prop :=
  exists exc,
    ev_call e = Print ("Error applying to " +:+ quoted job_title +:+ ": " +:+ str_exc exc)
    \/ ev_call e = Print ("Failed to apply to " +:+ quoted job_title +:+ ": " +:+ str_exc exc).

(** ** Concrete worlds *)

Module Examples.

Definition job_card : Elem := mkElem loc_search_cards 1.

(** One window on the result list, and the replies [replies] to come. *)
Definition listing (replies : list Reply) : World :=
  mkWorld [("W0", "https://www.dice.com/jobs?q=angular")] "W0" replies [] 1727260000 [∅] None.

Definition failing (e : SeleniumExc) : Reply :=
  mkReply (Some e) 0%N [] "" false [] None false.

(** The browser is gone: every command fails. *)
Definition browser_gone : World := listing (repeat (failing WebDriverException) 4).

Definition title : string := "Senior Angular Developer".

(** Two windows are open and the job was applied to already. *)
Definition second_window_left_open : World :=
  mkWorld [("W0", "https://www.dice.com/jobs?q=angular");
           ("W2", "https://www.dice.com/apply/1")]
          "W0" (repeat ok_reply 4) [] 1727260000 [{[title]}] None.

(** One window is open and the job was applied to already. *)
Definition already_applied : World :=
  mkWorld [("W0", "https://www.dice.com/jobs?q=angular")]
          "W0" (repeat ok_reply 4) [] 1727260000 [{[title]}] None.

(** Replies of a browser that cooperates. *)
Definition found (id : N) : Reply := mkReply None id [] "" true [] None true.
Definition found_all (ids : list N) : Reply := mkReply None 0%N ids "" true [] None true.
Definition says (s : string) : Reply := mkReply None 0%N [] s true [] None true.
Definition opens (h u : string) : Reply := mkReply None 0%N [] "" true [(h, u)] None true.
Definition goes_to (u : string) : Reply := mkReply None 0%N [] "" true [] (Some u) true.

(** A [config.ini], and one without [PauseDurationMax]. *)
Definition config : gmap string string :=
  list_to_map [("SearchTerms", "angular"); ("Email", "me@example.org");
               ("Password", "secret"); ("ResumePath", "cv.pdf");
               ("PauseDurationMin", "2"); ("PauseDurationMax", "5");
               ("PauseDuration", "4")].

Definition config_without_max : gmap string string := delete "PauseDurationMax" config.

(** Before the browser is launched. *)
Definition not_started (replies : list Reply) : World :=
  mkWorld [] "" replies [7%N] 1727260000 [] None.

(** The replies to the last revision, call by call: the launch and the
    search, the filter, the list of job cards with one card, and an
    application that goes through in a new tab. *)
Definition search_replies : list Reply :=
  [ says "W0"; ok_reply; ok_reply; found 1; ok_reply; ok_reply; found 2;
    goes_to "https://www.dice.com/jobs?q=angular" ].

Definition filter_replies : list Reply := [ ok_reply; ok_reply; found_all [3%N] ].

Definition card_replies : list Reply :=
  [ found_all [3%N]; found 4; says " Senior Angular Developer " ].

Definition application_replies : list Reply :=
  [ ok_reply; found 4; found 4; opens "W1" "https://www.dice.com/job-detail/1";
    ok_reply; ok_reply; ok_reply; found 5; found 6; ok_reply; found 7; found 8;
    goes_to "https://www.dice.com/apply/1"; ok_reply; found 9; ok_reply; found 10;
    ok_reply; ok_reply; ok_reply; ok_reply; ok_reply ].

(** A whole run: one job card, one application. *)
Definition one_application : World :=
  not_started (search_replies ++ filter_replies ++ card_replies ++ application_replies
               ++ [ok_reply]).

(** On the result list, with the application about to go through. *)
Definition before_application : World := listing application_replies.

(** On the result list; the job title never becomes clickable and the wait
    for it times out, the rest works. *)
Definition title_not_clickable : World :=
  listing ([ok_reply; found 4; failing TimeoutException] ++ repeat ok_reply 8).

(** On the result list; the job title opens in a new tab [W1], the click on
    Easy Apply opens the application in another new tab [W2], and the wait
    for the URL of [W1] to contain [/apply] times out. *)
Definition easy_apply_in_new_tab : World :=
  listing ([ ok_reply; found 4; found 4; opens "W1" "https://www.dice.com/job-detail/1";
             ok_reply; ok_reply; ok_reply; found 5; found 6; ok_reply; found 7; found 8;
             opens "W2" "https://www.dice.com/apply/1"; failing TimeoutException ]
           ++ repeat ok_reply 7).

(** The same, from the head of the loop body: the title of the card is read
    first. *)
Definition card_title_not_clickable : World :=
  listing ([found 4; says " Senior Angular Developer "; ok_reply; found 4;
            failing TimeoutException] ++ repeat ok_reply 8).

End Examples.

(** *** Assertions on the set of applied jobs *)

Definition unchanged_heap (w0 : World) : Assertion := fun w _ => heap w = heap w0.
Definition submitted : Assertion := fun _ t => Exists submit_clicked t.
Definition unchanged_or_submitted (w0 : World) : Assertion :=
  fun w t => unchanged_heap w0 w t \/ submitted w t.

Definition skip_message (job_title : string) : string :=
  "Skipping already applied job: " +:+ job_title.

(** ** Logs read by an automaton

    Some properties of a log say in which order calls of certain classes
    appear.  [classify] gives the class of a call ([None] for a call the
    property does not look at) and [delta] the move of the automaton on a
    class; a log is accepted when the automaton can read all of it. *)

Section Automaton.

Context {S Sym : Type}.
Variable classify : Event -> option Sym.
Variable delta : S -> Sym -> option S.

Definition log_step (s : S) (e : Event) : option S :=
  match classify e with
  | None => Some s
  | Some a => delta s a
  end.

Fixpoint log_run (s : S) (t : list Event) : option S :=
  match t with
  | [] => Some s
  | e :: t' =>
      match log_step s e with
      | Some s' => log_run s' t'
      | None => None
      end
  end.

(** Read from [s0], the log so far leads to [s]; or to some state. *)
Definition reaches (s0 s : S) : Assertion := fun _ t => log_run s0 t = Some s.
Definition accepted (s0 : S) : Assertion := fun _ t => exists s, log_run s0 t = Some s.

(** The calls on which the automaton stays in [s], and those it ignores. *)
Definition loops (s : S) (e : Event) : Prop := log_step s e = Some s.
Definition neutral (e : Event) : Prop := classify e = None.

End Automaton.

(** *** Résumé before Submit *)

Inductive UploadSym := Upload | SubmitClick.

Definition is_upload_input (loc : Locator) : bool :=
  Locator_eqb loc loc_resume || Locator_eqb loc (By_XPATH, xp_file_input).

Definition upload_classify (path : string) (e : Event) : option UploadSym :=
  match ev_call e with
  | SendKeys f text =>
      if is_upload_input (el_loc f) && ev_ok e && String.eqb text path
      then Some Upload else None
  | Click b => if Locator_eqb (el_loc b) loc_submit then Some SubmitClick else None
  | _ => None
  end.

(** The state says whether the résumé was sent; a click on Submit before
    that is refused. *)
Definition upload_delta (sent : bool) (a : UploadSym) : option bool :=
  match a with
  | Upload => Some true
  | SubmitClick => if sent then Some true else None
  end.

Definition resume_before_submit (path : string) : Assertion :=
  accepted (upload_classify path) upload_delta false.

(** *** The shadow root of the Easy Apply button *)

Definition count_calls (p : Event -> bool) (t : list Event) : nat :=
  length (List.filter p t).

(** The calls the property looks at: the shadow root is evaluated, an
    element is looked up in a shadow root, the button found there is clicked
    (by the driver or by script), Submit is clicked. *)
Inductive ShadowSym := SEval | SFind | SClick | SSubmit.

Definition shadow_classify (e : Event) : option ShadowSym :=
  match ev_call e with
  | ExecuteScript s b =>
      if String.eqb s js_shadow_root then Some SEval
      else if String.eqb s js_click && Locator_eqb (el_loc b) loc_btn_primary
           then Some SClick else None
  | FindElement (InShadow _) _ | FindElements (InShadow _) _ => Some SFind
  | Click b =>
      if Locator_eqb (el_loc b) loc_btn_primary then Some SClick
      else if Locator_eqb (el_loc b) loc_submit then Some SSubmit else None
  | _ => None
  end.

Inductive ShadowState := NotYet | Evaluated | Found | Clicked.

(** One evaluation, then one lookup, then the clicks on the button; Submit
    is clicked after that only. *)
Definition shadow_delta (s : ShadowState) (a : ShadowSym) : option ShadowState :=
  match s, a with
  | NotYet, SEval => Some Evaluated
  | Evaluated, SFind => Some Found
  | Found, SClick => Some Clicked
  | Clicked, SClick | Clicked, SSubmit => Some Clicked
  | _, _ => None
  end.

Definition shadow_in_order : Assertion := accepted shadow_classify shadow_delta NotYet.

Definition evals_left (s : ShadowState) : nat :=
  match s with NotYet => 1 | _ => 0 end.

Definition finds_left (s : ShadowState) : nat :=
  match s with NotYet | Evaluated => 1 | _ => 0 end.

(** *** The phases of a run *)

Inductive Phase := Config | Launching | Login | Search | Filter | Loop.

Definition phase_rank (p : Phase) : nat :=
  match p with
  | Config => 0 | Launching => 1 | Login => 2 | Search => 3 | Filter => 4 | Loop => 5
  end.

Definition login_locators : list Locator :=
  [loc_email; loc_sign_in; loc_password; loc_submit_password].

Definition search_locators : list Locator := [loc_typeahead; loc_submit_search].

(** The phase an element of the page belongs to: the login form, the search
    form, or a job listing and what opens from it. *)
Definition phase_of_locator (loc : Locator) : Phase :=
  if existsb (Locator_eqb loc) login_locators then Login
  else if existsb (Locator_eqb loc) search_locators then Search
  else Loop.

(** The phase of a call; [None] for the calls made in every phase
    (messages, sleeps, page loads, screenshots, the log file, [quit]). *)
Definition phase_of (e : Event) : option Phase :=
  match ev_call e with
  | ConfigRead _ => Some Config
  | Launch | MaximizeWindow => Some Launching
  | FindElement Document loc => Some (phase_of_locator loc)
  | FindElement _ _ | FindElements _ _ => Some Loop
  | Click b | Clear b | SendKeys b _ => Some (phase_of_locator (el_loc b))
  | WaitUntil _ (presence_of_element_located loc)
  | WaitUntil _ (element_to_be_clickable loc) => Some (phase_of_locator loc)
  | WaitUntil _ (presence_of_all_elements_located _) => Some Filter
  | WaitUntil _ (url_contains _) => Some Loop
  | CurrentUrl => Some Filter
  | Text _ | GetAttribute _ _ | ExecuteScript _ _ | CurrentWindowHandle | WindowHandles
  | SwitchToWindow _ | Close | Back | RandInt _ _ | Pause _ => Some Loop
  | Get _ | Quit | Print _ | Sleep _ | SaveScreenshot _ | MakeDirs _ | LogOpen _
  | LogWrite _ _ => None
  end.

(** A call of an earlier phase is refused. *)
Definition phase_delta (s p : Phase) : option Phase :=
  if (phase_rank s <=? phase_rank p)%nat then Some p else None.

(** The phases of the calls of a log, in the order of the log. *)
Definition phases (t : list Event) : list Phase := omap phase_of t.

Definition phase_le (p q : Phase) : Prop := (phase_rank p <= phase_rank q)%nat.

(** No call of a phase comes after a call of a later phase. *)
Definition phases_in_order (t : list Event) : Prop :=
  Sorted.StronglySorted phase_le (phases t).

(** The login form is filled with the configured credentials. *)
Definition login_sends (EMAIL PASSWORD : string) (e : Event) : Prop :=
  match ev_call e with
  | SendKeys b text =>
      (el_loc b = loc_email -> text = EMAIL) /\ (el_loc b = loc_password -> text = PASSWORD)
  | _ => True
  end.

(** *** The windows after an attempt *)

(** No window is open in [w'] that was not open in [w]. *)
Definition new_windows_closed (w w' : World) : Prop :=
  forall h, In h (handles w') -> In h (handles w).

(** * Properties *)

(** ** The logic of runs *)

Section Logic.

Context {A B : Type}.

Lemma bind_run (m : M A) (f : A -> M B) (w : World) :
  (m ≫= f) w =
  match res (m w) with
  | Ok a => mkOut (res (f a (post (m w)))) (post (f a (post (m w))))
                  (log (m w) ++ log (f a (post (m w))))
  | Raised e => mkOut (Raised e) (post (m w)) (log (m w))
  end.
Proof. reflexivity. Qed.

Lemma hoare_conseq (P P' : Assertion) (Q Q' : Result A -> Assertion) (m : M A) :
  hoare P' m Q' ->
  (forall w t, P w t -> P' w t) ->
  (forall r w t, Q' r w t -> Q r w t) ->
  hoare P m Q.
Proof. intros H HP HQ w t Hw. apply HQ, H, HP, Hw. Qed.

Lemma hoare_ret (P : Assertion) (Q : Result A -> Assertion) (a : A) :
  (forall w t, P w t -> Q (Ok a) w t) -> hoare P (mret a) Q.
Proof. intros H w t Hw. cbn. rewrite app_nil_r. auto. Qed.

Lemma hoare_raise (P : Assertion) (Q : Result A -> Assertion) (e : Exc) :
  (forall w t, P w t -> Q (Raised e) w t) -> hoare P (raise e) Q.
Proof. intros H w t Hw. cbn. rewrite app_nil_r. auto. Qed.

Lemma hoare_gets (P : Assertion) (Q : Result A -> Assertion) (f : World -> A) :
  (forall w t, P w t -> Q (Ok (f w)) w t) -> hoare P (gets f) Q.
Proof. intros H w t Hw. cbn. rewrite app_nil_r. auto. Qed.

Lemma hoare_bind (P : Assertion) (Q1 : Result A -> Assertion)
    (Q : Result B -> Assertion) (m : M A) (f : A -> M B) :
  hoare P m Q1 ->
  (forall a, hoare (Q1 (Ok a)) (f a) Q) ->
  (forall e w t, Q1 (Raised e) w t -> Q (Raised e) w t) ->
  hoare P (m ≫= f) Q.
Proof.
  intros Hm Hf He w t Hw. specialize (Hm w t Hw). rewrite bind_run.
  destruct (res (m w)) as [a|e]; cbn.
  - rewrite app_assoc. apply Hf, Hm.
  - apply He, Hm.
Qed.

End Logic.

Section LogicTry.

Context {A : Type}.

Lemma hoare_try_except (P : Assertion) (Q1 Q : Result A -> Assertion)
    (m : M A) (cs : list (Clause A)) :
  hoare P m Q1 ->
  (forall a w t, Q1 (Ok a) w t -> Q (Ok a) w t) ->
  (forall e,
      match select cs e with
      | Some h => hoare (Q1 (Raised e)) h Q
      | None => forall w t, Q1 (Raised e) w t -> Q (Raised e) w t
      end) ->
  hoare P (try_except m cs) Q.
Proof.
  intros Hm Hok Hh w t Hw. specialize (Hm w t Hw). unfold try_except.
  destruct (res (m w)) as [a|e] eqn:E.
  - rewrite E. apply Hok, Hm.
  - specialize (Hh e). destruct (select cs e) as [h|]; cbn.
    + rewrite app_assoc. apply Hh, Hm.
    + rewrite E. apply Hh, Hm.
Qed.

Lemma hoare_try_finally (P : Assertion) (Q1 Q : Result A -> Assertion)
    (m : M A) (fin : M unit) :
  hoare P m Q1 ->
  (forall r, hoare (Q1 r) fin
               (fun r' w t => match r' with Ok _ => Q r w t | Raised e => Q (Raised e) w t end)) ->
  hoare P (try_finally m fin) Q.
Proof.
  intros Hm Hf w t Hw. specialize (Hm w t Hw). unfold try_finally. cbn.
  specialize (Hf (res (m w)) _ _ Hm). rewrite app_assoc.
  destruct (res (fin (post (m w)))); exact Hf.
Qed.

End LogicTry.

(** *** Preorders on worlds *)

#[global] Instance any_world_preorder : PreOrder any_world.
Proof. split; red; unfold any_world; auto. Qed.

#[global] Instance same_heap_preorder : PreOrder same_heap.
Proof. split; red; unfold same_heap; intros; congruence. Qed.

#[global] Instance same_windows_preorder : PreOrder same_windows.
Proof.
  split; red; unfold same_windows; [tauto|].
  intros x y z [] []. split; congruence.
Qed.

#[global] Instance heap_grows_preorder : PreOrder heap_grows.
Proof.
  split; red; unfold heap_grows; [set_solver|].
  intros x y z H1 H2 l. specialize (H1 l). specialize (H2 l). set_solver.
Qed.

Lemma any_world_heap_only : heap_only any_world.
Proof. red. unfold any_world. auto. Qed.

Lemma same_heap_heap_only : heap_only same_heap.
Proof. red. unfold same_heap. auto. Qed.

Lemma heap_grows_heap_only : heap_only heap_grows.
Proof. red. unfold heap_grows, set_lookup. intros w w' ->. set_solver. Qed.

Lemma heap_only_frame_only (R : World -> World -> Prop) : heap_only R -> frame_only R.
Proof. intros H w w' Hh _ _. apply H, Hh. Qed.

Lemma same_windows_frame_only : frame_only same_windows.
Proof. red. unfold same_windows. auto. Qed.

Create HintDb within.

#[global] Hint Resolve any_world_heap_only same_heap_heap_only heap_grows_heap_only
  heap_only_frame_only same_windows_frame_only : within.

(** *** Structural rules for [within] *)

Section Within.

Context (R : World -> World -> Prop) `{!PreOrder R} (phi : Event -> Prop).

Lemma within_ret {A} (a : A) : within R phi (mret a).
Proof. intros w. split; [reflexivity | constructor]. Qed.

Lemma within_raise {A} (e : Exc) : within R phi (@raise A e).
Proof. intros w. split; [reflexivity | constructor]. Qed.

Lemma within_exit {A} (code : Z) : within R phi (@exit A code).
Proof. apply within_raise. Qed.

Lemma within_gets {A} (f : World -> A) : within R phi (gets f).
Proof. intros w. split; [reflexivity | constructor]. Qed.

Lemma within_bind {A B} (m : M A) (f : A -> M B) :
  within R phi m -> (forall a, within R phi (f a)) -> within R phi (m ≫= f).
Proof.
  intros Hm Hf w. rewrite bind_run. destruct (Hm w) as [HR Hl].
  destruct (res (m w)) as [a|e]; cbn; [|auto].
  destruct (Hf a (post (m w))) as [HR' Hl'].
  split; [etransitivity; eauto | apply Forall_app; auto].
Qed.

Lemma within_ret_bind {A B} (a : A) (f : A -> M B) :
  within R phi (f a) -> within R phi (mret a ≫= f).
Proof. intros H w. exact (H w). Qed.

(** A bind whose continuation may use what is known of the value. *)
Lemma within_bind_val {A B} (V : A -> Prop) (m : M A) (f : A -> M B) :
  within R phi m ->
  (forall w a, res (m w) = Ok a -> V a) ->
  (forall a, V a -> within R phi (f a)) ->
  within R phi (m ≫= f).
Proof.
  intros Hm HV Hf w. rewrite bind_run. destruct (Hm w) as [HR Hl].
  destruct (res (m w)) as [a|e] eqn:E; cbn; [|auto].
  destruct (Hf a (HV w a E) (post (m w))) as [HR' Hl'].
  split; [etransitivity; eauto | apply Forall_app; auto].
Qed.

Lemma within_raise_bind {A B} (e : Exc) (f : A -> M B) :
  within R phi (raise e ≫= f).
Proof. intros w. split; [reflexivity | constructor]. Qed.

Lemma within_bind_assoc {A B C} (m : M A) (g : A -> M B) (f : B -> M C) :
  within R phi (m ≫= fun x => g x ≫= f) -> within R phi ((m ≫= g) ≫= f).
Proof.
  intros H w. specialize (H w). rewrite !bind_run in *. cbn.
  destruct (res (m w)) as [a|e]; cbn in *; [|exact H].
  rewrite bind_run in H.
  destruct (res (g a (post (m w)))) as [b|e]; cbn in *; [|exact H].
  rewrite <- app_assoc. exact H.
Qed.

Lemma within_try_except {A} (m : M A) (cs : list (Clause A)) :
  within R phi m ->
  Forall (fun c => forall e, within R phi (snd c e)) cs ->
  within R phi (try_except m cs).
Proof.
  intros Hm Hcs w. unfold try_except. destruct (Hm w) as [HR Hl].
  destruct (res (m w)) as [a|e]; [auto|].
  assert (Hsel : forall h, select cs e = Some h -> within R phi h).
  { clear -Hcs. induction Hcs as [|[cls body] cs Hc _ IH]; cbn; [discriminate|].
    intros h. destruct (cls e); [intros [= <-]; apply Hc | apply IH]. }
  destruct (select cs e) as [h|]; [|auto].
  destruct (Hsel h eq_refl (post (m w))) as [HR' Hl']. cbn.
  split; [etransitivity; eauto | apply Forall_app; auto].
Qed.

Lemma within_try_finally {A} (m : M A) (fin : M unit) :
  within R phi m -> within R phi fin -> within R phi (try_finally m fin).
Proof.
  intros Hm Hf w. unfold try_finally. cbn. destruct (Hm w) as [HR Hl].
  destruct (Hf (post (m w))) as [HR' Hl'].
  split; [etransitivity; eauto | apply Forall_app; auto].
Qed.

Lemma within_mapM {A B} (f : A -> M B) (l : list A) :
  (forall a, within R phi (f a)) -> within R phi (mapM f l).
Proof.
  intros Hf. induction l as [|a l IH]; cbn.
  - apply within_ret.
  - apply within_bind; [apply Hf|]. intros b.
    apply within_bind; [apply IH|]. intros k. apply within_ret.
Qed.

Lemma within_mapM_map {A B C} (f : B -> M C) (g : A -> B) (l : list A) :
  (forall a, within R phi (f (g a))) -> within R phi (mapM f (map g l)).
Proof.
  intros Hf. induction l as [|a l IH]; cbn.
  - apply within_ret.
  - apply within_bind; [apply Hf|]. intros b.
    apply within_bind; [apply IH|]. intros k. apply within_ret.
Qed.

Lemma within_emit (c : Call) : phi (Ev c true) -> within R phi (emit c).
Proof. intros H w. split; [reflexivity | repeat constructor; exact H]. Qed.

Lemma within_print (msg : string) : phi (Ev (Print msg) true) -> within R phi (print msg).
Proof. apply within_emit. Qed.

Lemma within_unbind_original_window :
  frame_only R -> within R phi unbind_original_window.
Proof. intros HR w. split; [apply HR; reflexivity | constructor]. Qed.

Lemma within_assign_original_window (h : Handle) :
  frame_only R -> within R phi (assign_original_window h).
Proof. intros HR w. split; [apply HR; reflexivity | constructor]. Qed.

Lemma within_sleep_as (mk : Z -> Call) (secs : Z) :
  frame_only R -> (forall ok, phi (Ev (mk secs) ok)) -> within R phi (sleep_as mk secs).
Proof.
  intros HR H w. unfold sleep_as. destruct (secs <? 0); cbn.
  - split; [reflexivity | repeat constructor; apply H].
  - split; [apply HR; reflexivity | repeat constructor; apply H].
Qed.

Lemma within_sleep (secs : Z) :
  frame_only R -> (forall ok, phi (Ev (Sleep secs) ok)) -> within R phi (sleep secs).
Proof. apply within_sleep_as. Qed.

Lemma within_randint (a b : Z) :
  frame_only R -> (forall ok, phi (Ev (RandInt a b) ok)) -> within R phi (randint a b).
Proof.
  intros HR H w. unfold randint. destruct (b <? a); cbn.
  - split; [reflexivity | repeat constructor; apply H].
  - split; [apply HR; reflexivity | repeat constructor; apply H].
Qed.

Lemma effect_heap (c : Call) (r : Reply) (w : World) : heap (effect c r w) = heap w.
Proof. destruct c; cbn; try reflexivity. destruct (String.eqb _ _); reflexivity. Qed.

Lemma effect_neutral (c : Call) (r : Reply) (w : World) :
  window_neutral c = true -> effect c r w = w.
Proof. destruct c; cbn; congruence. Qed.

(** A call that may change the windows. *)
Lemma within_perform (c : Call) :
  heap_only R -> (forall ok, phi (Ev c ok)) -> within R phi (perform c).
Proof.
  intros HR H w. unfold perform. destruct (failure _ _ _); cbn.
  - split; [apply HR; reflexivity | repeat constructor; apply H].
  - split; [apply HR; rewrite effect_heap; reflexivity | repeat constructor; apply H].
Qed.

(** A call that leaves the windows alone. *)
Lemma within_perform_neutral (c : Call) :
  window_neutral c = true -> frame_only R -> (forall ok, phi (Ev c ok)) ->
  within R phi (perform c).
Proof.
  intros Hc HR H w. unfold perform. destruct (failure _ _ _); cbn.
  - split; [apply HR; reflexivity | repeat constructor; apply H].
  - rewrite effect_neutral by exact Hc.
    split; [apply HR; reflexivity | repeat constructor; apply H].
Qed.

End Within.

Lemma within_set_add_any (phi : Event -> Prop) (l : nat) (x : string) :
  within any_world phi (set_add l x).
Proof. intros w. split; [exact I | constructor]. Qed.

Lemma within_set_new_any (phi : Event -> Prop) : within any_world phi set_new.
Proof. intros w. split; [exact I | constructor]. Qed.

Lemma set_lookup_alter (l l' : nat) (x : string) (hp : list (gset string)) :
  default ∅ (hp !! l') ⊆ default ∅ (alter (fun s => {[x]} ∪ s) l hp !! l').
Proof.
  destruct (decide (l = l')) as [->|Hne].
  - rewrite list_lookup_alter_eq. destruct (hp !! l'); cbn; set_solver.
  - rewrite list_lookup_alter_ne by congruence. reflexivity.
Qed.

Lemma within_set_add_grows (phi : Event -> Prop) (l : nat) (x : string) :
  within heap_grows phi (set_add l x).
Proof.
  intros w. split; [|constructor]. intros l'. unfold set_lookup. cbn.
  apply set_lookup_alter.
Qed.

#[global] Hint Resolve within_set_add_any within_set_new_any within_set_add_grows : within.

(** The API of the driver unfolds to [perform]. *)
Create HintDb api.

#[global] Hint Unfold driver_get driver_current_url find_element find_elements click clear
  send_keys text_of get_attribute execute_script execute_script_shadow_root
  wait_until_element wait_until_elements wait_until_url_contains
  driver_current_window_handle driver_window_handles driver_switch_to_window
  driver_close driver_back driver_quit driver_maximize_window driver_save_screenshot
  os_makedirs shadow_find_element first_other set_contains time_now config_get py_int
  switch_to_original_window emits keeps : api.

(** Side conditions on one logged call. *)
Ltac head_of t :=
  lazymatch t with
  | ?f _ => head_of f
  | _ => t
  end.

(** A goal made of equalities, conjunctions, disjunctions and memberships. *)
Ltac pick :=
  first [ exact I | reflexivity | assumption | lia
        | split; pick | left; pick | right; pick ].

Ltac event_side :=
  intros;
  lazymatch goal with
  | |- ?phi (Ev _ _) => let h := head_of phi in unfold h; cbn [ev_call ev_ok]
  | |- _ => idtac
  end;
  first [ exact I | reflexivity | solve [auto with within] | solve [cbn [In]; pick]
        | solve [intros; reflexivity]
        | solve [intros; discriminate]
        | solve [let H := fresh in intro H; vm_compute in H; discriminate H] ].

(** What is left after a structural rule: the preorder instance, the frame
    condition, the condition on the logged call, or a smaller program. *)
Ltac within_side :=
  lazymatch goal with
  | |- PreOrder _ => typeclasses eauto
  | |- heap_only _ => solve [auto with within]
  | |- frame_only _ => solve [auto with within]
  | |- window_neutral _ = true => reflexivity
  | |- Forall _ (_ :: _) => constructor; [cbn [snd]; intros ? | within_side]
  | |- Forall _ [] => constructor
  | |- forall _, within _ _ _ => intros ?
  | |- within _ _ _ => idtac
  | |- _ => try event_side
  end.

Ltac within_step :=
  lazymatch goal with
  | |- within _ _ ((match (if ?b then _ else _) with _ => _ end) ≫= _) => destruct b; cbv beta iota
  | |- within _ _ (match (if ?b then _ else _) with _ => _ end) => destruct b; cbv beta iota
  | |- within _ _ ((match ?x with _ => _ end) ≫= _) => destruct x; cbv beta iota
  | |- within _ _ ((if ?b then _ else _) ≫= _) => destruct b; cbv beta iota
  | |- within _ _ ((_ ≫= _) ≫= _) => apply within_bind_assoc
  | |- within _ _ (mret _ ≫= _) => apply within_ret_bind; cbv beta
  | |- within _ _ (raise _ ≫= _) => apply within_raise_bind
  | |- within _ _ (exit _ ≫= _) => apply within_raise_bind
  | |- within _ _ (_ ≫= _) => apply within_bind
  | |- within _ _ (mret _) => apply within_ret
  | |- within _ _ (raise _) => apply within_raise
  | |- within _ _ (exit _) => apply within_exit
  | |- within _ _ (gets _) => apply within_gets
  | |- within _ _ (try_except _ _) => apply within_try_except
  | |- within _ _ (try_finally _ _) => apply within_try_finally
  | |- within _ _ (mapM _ (map _ _)) => apply within_mapM_map
  | |- within _ _ (mapM _ _) => apply within_mapM
  | |- within _ _ (perform _) =>
      first [ apply within_perform_neutral; [ | reflexivity | | ]
            | apply within_perform ]
  | |- within _ _ (emit _) => apply within_emit
  | |- within _ _ (print _) => apply within_print
  | |- within _ _ (sleep _) => apply within_sleep
  | |- within _ _ (sleep_as _ _) => apply within_sleep_as
  | |- within _ _ (randint _ _) => apply within_randint
  | |- within _ _ unbind_original_window => apply within_unbind_original_window
  | |- within _ _ (assign_original_window _) => apply within_assign_original_window
  | |- within _ _ (if ?b then _ else _) => destruct b; cbv beta iota
  | |- within _ _ (match ?x with _ => _ end) => destruct x; cbv beta iota
  | |- within _ _ _ => first [ solve [auto with within] | progress autounfold with api ]
  end; within_side.

Ltac within_auto := autounfold with api; repeat within_step.

(** A structural rule applied by hand. *)
Ltac within_rule lem := first [eapply lem | apply lem]; try typeclasses eauto.

(** *** Walking through a program with an assertion *)

Section Walk.

Context {A B : Type}.

Lemma hoare_frame (I : Assertion) (phi : Event -> Prop) (R : World -> World -> Prop)
    (m : M A) :
  stable I phi R -> within R phi m -> hoare I m (fun _ => I).
Proof. intros Hs Hm w t Hw. destruct (Hm w) as [HR Hl]. eapply Hs; eauto. Qed.

Lemma hoare_frame_to (I J : Assertion) (phi : Event -> Prop)
    (R : World -> World -> Prop) (m : M A) :
  stable I phi R -> within R phi m -> (forall w t, I w t -> J w t) ->
  hoare I m (fun _ => J).
Proof. intros Hs Hm HJ w t Hw. apply HJ. eapply hoare_frame; eauto. Qed.

Lemma hoare_bind_frame (I J : Assertion) (phi : Event -> Prop)
    (R : World -> World -> Prop) (m : M A) (f : A -> M B) :
  stable I phi R -> within R phi m -> (forall w t, I w t -> J w t) ->
  (forall a, hoare I (f a) (fun _ => J)) ->
  hoare I (m ≫= f) (fun _ => J).
Proof.
  intros Hs Hm HJ Hf. eapply hoare_bind.
  - eapply hoare_frame; eauto.
  - exact Hf.
  - intros e w t. apply HJ.
Qed.

Lemma hoare_ret_bind (P : Assertion) (Q : Result B -> Assertion) (a : A) (f : A -> M B) :
  hoare P (f a) Q -> hoare P (mret a ≫= f) Q.
Proof. intros H w t Hw. exact (H w t Hw). Qed.

Lemma hoare_raise_bind (P : Assertion) (Q : Result B -> Assertion) (e : Exc)
    (f : A -> M B) :
  (forall w t, P w t -> Q (Raised e) w t) -> hoare P (raise e ≫= f) Q.
Proof. intros H w t Hw. cbn. rewrite app_nil_r. auto. Qed.

Lemma hoare_bind_assoc {C} (P : Assertion) (Q : Result C -> Assertion)
    (m : M A) (g : A -> M B) (f : B -> M C) :
  hoare P (m ≫= fun x => g x ≫= f) Q -> hoare P ((m ≫= g) ≫= f) Q.
Proof.
  intros H w t Hw. specialize (H w t Hw). rewrite !bind_run in *. cbn.
  destruct (res (m w)) as [a|e]; cbn in *; [|exact H].
  rewrite bind_run in H.
  destruct (res (g a (post (m w)))) as [b|e]; cbn in *; [|exact H].
  rewrite <- (app_assoc (log (m w))). exact H.
Qed.

End Walk.

(** An assertion that nothing can break. *)
Lemma stable_any (I : Assertion) :
  (forall w t w' t', I w t -> I w' (t ++ t')) -> stable I any_event any_world.
Proof. intros H w t w' t' Hw _ _. exact (H w t w' t' Hw). Qed.

Lemma within_any {A} (R : World -> World -> Prop) (phi : Event -> Prop) (m : M A) :
  within R phi m -> within any_world any_event m.
Proof.
  intros H w. split; [exact I|]. apply Forall_forall. intros; exact I.
Qed.

Lemma within_anything {A} (m : M A) : within any_world any_event m.
Proof. intros w. split; [exact I|]. apply Forall_forall. intros; exact I. Qed.

Section WalkTry.

Context {A : Type}.

Lemma hoare_try_except_walk (P Q1 Q : Assertion) (m : M A) (cs : list (Clause A)) :
  hoare P m (fun _ => Q1) ->
  (forall w t, Q1 w t -> Q w t) ->
  Forall (fun c => forall e, hoare Q1 (snd c e) (fun _ => Q)) cs ->
  hoare P (try_except m cs) (fun _ => Q).
Proof.
  intros Hm HQ Hcs. eapply hoare_try_except; [exact Hm | intros; cbn; auto |].
  intros e. clear Hm.
  induction Hcs as [|[cls body] cs Hc _ IH]; cbn; [intros; apply HQ; auto|].
  destruct (cls e); [apply Hc | apply IH].
Qed.

Lemma hoare_try_finally_walk (P Q1 Q : Assertion) (m : M A) (fin : M unit) :
  hoare P m (fun _ => Q1) ->
  hoare Q1 fin (fun _ => Q) ->
  hoare P (try_finally m fin) (fun _ => Q).
Proof.
  intros Hm Hf. eapply hoare_try_finally; [exact Hm|].
  intros r w t Hw. specialize (Hf w t Hw). cbn in Hf.
  destruct (res (fin w)); exact Hf.
Qed.

End WalkTry.

Create HintDb stable.

(** One step of a walk.  [special] handles the calls at which the assertion
    changes; every other step must keep the assertion, by [hoare_bind_frame]. *)
Ltac walk_side :=
  lazymatch goal with
  | |- stable _ _ _ => solve [eauto with stable]
  | |- within _ _ _ => solve [within_auto]
  | |- forall _ : World, _ => solve [auto | eauto with stable]
  | |- Forall _ (_ :: _) => constructor; [cbn [snd]; intros ? | walk_side]
  | |- Forall _ [] => constructor
  | |- forall _, hoare _ _ _ => intros ?
  | |- _ => idtac
  end.

Ltac walk_step special :=
  lazymatch goal with
  | |- hoare _ ((match (if ?b then _ else _) with _ => _ end) ≫= _) _ => destruct b; cbv beta iota
  | |- hoare _ (match (if ?b then _ else _) with _ => _ end) _ => destruct b; cbv beta iota
  | |- hoare _ ((match ?x with _ => _ end) ≫= _) _ => destruct x; cbv beta iota
  | |- hoare _ ((if ?b then _ else _) ≫= _) _ => destruct b; cbv beta iota
  | |- hoare _ ((_ ≫= _) ≫= _) _ => apply hoare_bind_assoc
  | |- hoare _ (mret _ ≫= _) _ => apply hoare_ret_bind; cbv beta
  | |- hoare _ (raise _ ≫= _) _ => apply hoare_raise_bind
  | |- hoare _ (exit _ ≫= _) _ => apply hoare_raise_bind
  | |- hoare _ (if ?b then _ else _) _ => destruct b; cbv beta iota
  | |- hoare _ (match ?x with _ => _ end) _ => destruct x; cbv beta iota
  | |- hoare _ (_ ≫= _) _ => first [ special | eapply hoare_bind_frame ]
  | |- hoare _ (try_except _ _) (fun _ => ?Q) =>
      first [ eapply hoare_frame_to; [solve [eauto with stable] | solve [within_auto] | ]
            | eapply (hoare_try_except_walk _ Q Q) ]
  | |- hoare _ (try_finally _ _) (fun _ => ?Q) =>
      first [ eapply hoare_frame_to; [solve [eauto with stable] | solve [within_auto] | ]
            | eapply (hoare_try_finally_walk _ Q Q) ]
  | |- hoare _ _ _ => first [ special | eapply hoare_frame_to ]
  end; walk_side.

Ltac walk special := autounfold with api; repeat walk_step special.

(** *** Running a program step by step *)

Section Wp.

Context {A B : Type}.

Lemma wp_hoare (P : Assertion) (m : M A) (Q : Result A -> Assertion) :
  hoare P m Q <-> (forall w t, P w t -> wp m Q w t).
Proof. reflexivity. Qed.

Lemma wp_mono (m : M A) (Q' Q : Result A -> Assertion) (w : World) (t : list Event) :
  wp m Q' w t -> (forall r w' t', Q' r w' t' -> Q r w' t') -> wp m Q w t.
Proof. unfold wp. auto. Qed.

Lemma wp_ret (a : A) (Q : Result A -> Assertion) (w : World) (t : list Event) :
  Q (Ok a) w t -> wp (mret a) Q w t.
Proof. unfold wp. cbn. rewrite app_nil_r. auto. Qed.

Lemma wp_raise (e : Exc) (Q : Result A -> Assertion) (w : World) (t : list Event) :
  Q (Raised e) w t -> wp (raise e) Q w t.
Proof. unfold wp. cbn. rewrite app_nil_r. auto. Qed.

Lemma wp_gets (f : World -> A) (Q : Result A -> Assertion) (w : World) (t : list Event) :
  Q (Ok (f w)) w t -> wp (gets f) Q w t.
Proof. unfold wp. cbn. rewrite app_nil_r. auto. Qed.

Lemma wp_bind (m : M A) (f : A -> M B) (Q : Result B -> Assertion)
    (w : World) (t : list Event) :
  wp m (fun r w' t' =>
          match r with
          | Ok a => wp (f a) Q w' t'
          | Raised e => Q (Raised e) w' t'
          end) w t ->
  wp (m ≫= f) Q w t.
Proof.
  unfold wp. rewrite bind_run. destruct (res (m w)) as [a|e]; cbn; [|auto].
  rewrite app_assoc. auto.
Qed.

Lemma wp_try_except (m : M A) (cs : list (Clause A)) (Q : Result A -> Assertion)
    (w : World) (t : list Event) :
  wp m (fun r w' t' =>
          match r with
          | Ok a => Q (Ok a) w' t'
          | Raised e =>
              match select cs e with
              | Some h => wp h Q w' t'
              | None => Q (Raised e) w' t'
              end
          end) w t ->
  wp (try_except m cs) Q w t.
Proof.
  unfold wp, try_except. destruct (res (m w)) as [a|e] eqn:E; [rewrite E; auto|].
  destruct (select cs e) as [h|]; cbn; [rewrite app_assoc | rewrite E]; auto.
Qed.

Lemma wp_try_finally (m : M A) (fin : M unit) (Q : Result A -> Assertion)
    (w : World) (t : list Event) :
  wp m (fun r w' t' =>
          wp fin (fun r' w'' t'' =>
                    match r' with
                    | Ok _ => Q r w'' t''
                    | Raised e => Q (Raised e) w'' t''
                    end) w' t') w t ->
  wp (try_finally m fin) Q w t.
Proof.
  unfold wp, try_finally. cbn. rewrite app_assoc.
  destruct (res (fin (post (m w)))); auto.
Qed.

Lemma wp_perform (c : Call) (Q : Result Reply -> Assertion) (w : World) (t : list Event) :
  (forall e, failure c (hd dead_reply (oracle w)) w = Some e ->
             Q (Raised e) (set_oracle (tl (oracle w)) w) (t ++ [Ev c false])) ->
  (failure c (hd dead_reply (oracle w)) w = None ->
   Q (Ok (hd dead_reply (oracle w)))
     (effect c (hd dead_reply (oracle w)) (set_oracle (tl (oracle w)) w))
     (t ++ [Ev c (took_effect c (hd dead_reply (oracle w)))])) ->
  wp (perform c) Q w t.
Proof.
  unfold wp, perform. intros Hf Hok.
  destruct (failure c _ w) as [e|]; cbn; auto.
Qed.

Lemma wp_emit (c : Call) (Q : Result unit -> Assertion) (w : World) (t : list Event) :
  Q (Ok tt) w (t ++ [Ev c true]) -> wp (emit c) Q w t.
Proof. unfold wp. cbn. auto. Qed.

(** A summary of [m], proved once, used inside a run. *)
Lemma wp_summary (P : Assertion) (m : M A) (Q' Q : Result A -> Assertion)
    (w : World) (t : list Event) :
  hoare P m Q' -> P w t -> (forall r w' t', Q' r w' t' -> Q r w' t') -> wp m Q w t.
Proof. intros H Hw HQ. apply HQ, H, Hw. Qed.

End Wp.

(** Every failure of a call is an [Exception]. *)
Lemma failure_is_Exception (c : Call) (r : Reply) (w : World) (e : Exc) :
  failure c r w = Some e -> is_Exception e = true.
Proof.
  unfold failure.
  destruct c; try discriminate;
    repeat match goal with
           | |- context [if ?b then _ else _] => destruct b
           | |- context [r_exc r] => destruct (r_exc r)
           end; cbn; intros [= <-]; reflexivity.
Qed.

Ltac wp_step :=
  lazymatch goal with
  | |- wp (mret _ ≫= _) _ _ _ => apply wp_bind, wp_ret; cbv beta iota
  | |- wp (raise _ ≫= _) _ _ _ => apply wp_bind, wp_raise; cbv beta iota
  | |- wp (exit _ ≫= _) _ _ _ => apply wp_bind, wp_raise; cbv beta iota
  | |- wp (_ ≫= _) _ _ _ => apply wp_bind
  | |- wp (mret _) _ _ _ => apply wp_ret; cbv beta iota
  | |- wp (raise _) _ _ _ => apply wp_raise; cbv beta iota
  | |- wp (exit _) _ _ _ => apply wp_raise; cbv beta iota
  | |- wp (gets _) _ _ _ => apply wp_gets; cbv beta iota
  | |- wp (emit _) _ _ _ => apply wp_emit; cbv beta iota
  | |- wp (print _) _ _ _ => apply wp_emit; cbv beta iota
  | |- wp (try_except _ _) _ _ _ => apply wp_try_except
  | |- wp (try_finally _ _) _ _ _ => apply wp_try_finally
  | |- wp (perform _) _ _ _ =>
      apply wp_perform;
      [ let e := fresh "e" in let F := fresh "F" in
        intros e F; pose proof (failure_is_Exception _ _ _ _ F); cbv beta iota
      | let F := fresh "F" in intros F; cbv beta iota ]
  | |- wp (if ?b then _ else _) _ _ _ =>
      let E := fresh "E" in destruct b eqn:E; cbv beta iota
  | |- wp (match ?x with _ => _ end) _ _ _ =>
      let E := fresh "E" in destruct x eqn:E; cbv beta iota
  end.

(** The [except] clause that an exception selects. *)
Ltac wp_select :=
  first
    [ progress cbn [select is_Exception is_WebDriverException is_KeyError is_ValueError
                    is_NoSuchElementException is_NoSuchElement_or_Timeout
                    is_Intercepted_or_NotInteractable]
    | match goal with
      | H : is_Exception ?e = true |- context [is_Exception ?e] =>
          rewrite H; cbv beta iota
      end
    | lazymatch goal with
      | |- match (if ?b then _ else _) with _ => _ end =>
          let E := fresh "E" in destruct b eqn:E; cbv beta iota
      end ].

Ltac wp_run := autounfold with api; repeat first [wp_step | wp_select].

(** ** Strings *)

Lemma app_String (c : ascii) (s t : string) : String c s +:+ t = String c (s +:+ t).
Proof. reflexivity. Qed.

Lemma app_empty_l (s : string) : "" +:+ s = s.
Proof. reflexivity. Qed.

Lemma app_assoc_string (s t u : string) : (s +:+ t) +:+ u = s +:+ (t +:+ u).
Proof. induction s as [|c s IH]; [reflexivity|]. rewrite !app_String, IH. reflexivity. Qed.

Lemma all_chars_app (p : ascii -> bool) (s t : string) :
  all_chars p (s +:+ t) = all_chars p s && all_chars p t.
Proof.
  induction s as [|c s IH]; [reflexivity|].
  rewrite app_String. cbn. rewrite IH, andb_assoc. reflexivity.
Qed.

Lemma all_chars_weaken (p q : ascii -> bool) (s : string) :
  (forall c, p c = true -> q c = true) -> all_chars p s = true -> all_chars q s = true.
Proof.
  intros Hpq. induction s as [|c s IH]; cbn; [reflexivity|].
  intros [Hc Hs]%andb_prop. rewrite (Hpq c Hc), (IH Hs). reflexivity.
Qed.

Lemma plain_name_all_chars (s : string) :
  plain_name s = all_chars (fun c => Py.isalnum c || Ascii.eqb c "_") s.
Proof. induction s as [|c s IH]; cbn; [reflexivity|]. rewrite IH. reflexivity. Qed.

Lemma plain_name_app (s t : string) :
  plain_name (s +:+ t) = plain_name s && plain_name t.
Proof. rewrite !plain_name_all_chars. apply all_chars_app. Qed.

Lemma join_if_all_chars (keep : ascii -> bool) (s : string) :
  all_chars keep (Py.join_if keep s) = true.
Proof.
  induction s as [|c s IH]; cbn; [reflexivity|].
  destruct (keep c) eqn:E; cbn; [rewrite E|]; exact IH.
Qed.

Lemma rstrip_with_all_chars (p drop : ascii -> bool) (s : string) :
  all_chars p s = true -> all_chars p (Py.rstrip_with drop s) = true.
Proof.
  induction s as [|c s IH]; cbn; [reflexivity|].
  intros [Hc Hs]%andb_prop. specialize (IH Hs).
  destruct (Py.rstrip_with drop s) as [|c' r].
  - destruct (drop c); cbn; [reflexivity | rewrite Hc; reflexivity].
  - cbn in *. rewrite Hc. exact IH.
Qed.

Lemma rstrip_with_ext (p drop drop' : ascii -> bool) (s : string) :
  (forall c, p c = true -> drop c = drop' c) ->
  all_chars p s = true -> Py.rstrip_with drop s = Py.rstrip_with drop' s.
Proof.
  intros Hext. induction s as [|c s IH]; cbn; [reflexivity|].
  intros [Hc Hs]%andb_prop. rewrite (IH Hs), (Hext c Hc). reflexivity.
Qed.

Lemma replace_space_map_chars (s : string) :
  Py.replace_char " " "_" s = map_chars space_to_underscore s.
Proof.
  induction s as [|c s IH]; cbn; [reflexivity|]. unfold space_to_underscore.
  destruct (Ascii.eqb c " "); rewrite IH; reflexivity.
Qed.

(** Among the characters [sanitize_title] keeps, the space is the only
    white space. *)
Lemma kept_space (c : ascii) :
  sanitize_keep c = true -> Py.isspace c = is_space_char c.
Proof.
  destruct c as [[] [] [] [] [] [] [] []]; vm_compute; intros H;
    first [reflexivity | discriminate H].
Qed.

Lemma kept_to_plain (c : ascii) :
  sanitize_keep c = true ->
  Py.isalnum (space_to_underscore c) || Ascii.eqb (space_to_underscore c) "_" = true.
Proof.
  destruct c as [[] [] [] [] [] [] [] []]; vm_compute; intros H;
    first [reflexivity | discriminate H].
Qed.

Lemma map_chars_plain (s : string) :
  all_chars sanitize_keep s = true -> plain_name (map_chars space_to_underscore s) = true.
Proof.
  induction s as [|c s IH]; cbn; [reflexivity|].
  intros [Hc Hs]%andb_prop. rewrite (kept_to_plain c Hc), (IH Hs). reflexivity.
Qed.

Lemma sanitize_title_plain (title : string) : plain_name (sanitize_title title) = true.
Proof.
  unfold sanitize_title. rewrite replace_space_map_chars.
  apply map_chars_plain, rstrip_with_all_chars, join_if_all_chars.
Qed.

(** C8 (amended): [sanitize_title] is a function of its argument alone; it
    removes every character that is not alphanumeric, a space or an
    underscore, strips the trailing spaces of what is kept (trailing
    underscores stay), and replaces each space left by an underscore; the
    result consists of alphanumeric characters and underscores only. *)
Theorem sanitize_title_meets_description (title : string) :
  sanitize_title title = sanitize_title_in_words title
  /\ plain_name (sanitize_title title) = true.
Proof.
  split; [|apply sanitize_title_plain].
  unfold sanitize_title, sanitize_title_in_words, Py.rstrip.
  rewrite replace_space_map_chars. f_equal.
  apply (rstrip_with_ext sanitize_keep); [apply kept_space | apply join_if_all_chars].
Qed.

(** C8 as stated fails: a trailing underscore is not stripped. *)
Lemma sanitize_title_keeps_trailing_underscore :
  sanitize_title "a_" = "a_"
  /\ sanitize_title_as_described "a_" = "a"
  /\ sanitize_title "a_" <> sanitize_title_as_described "a_".
Proof. vm_compute. repeat split; discriminate. Qed.

(** ** C7: the files the script writes *)

Lemma str_of_N_plain (n : N) : plain_name (Py.str_of_N n) = true.
Proof.
  unfold Py.str_of_N. generalize (N.to_uint n). intros u.
  induction u; cbn; auto.
Qed.

Lemma screenshot_dir_join (sub : string) :
  plain_name sub = true -> screenshot_dir (Py.path_join "screenshots" sub).
Proof. intros H. exists sub. split; [reflexivity | exact H]. Qed.

Lemma screenshot_path_join (sub file : string) :
  plain_name sub = true -> plain_name file = true ->
  screenshot_path (Py.path_join (Py.path_join "screenshots" sub) (file +:+ ".png")).
Proof.
  intros Hs Hf. exists sub, file. split; [|auto].
  unfold Py.path_join. rewrite !app_assoc_string. reflexivity.
Qed.

Lemma screenshot_path_capture (sub name : string) (timestamp : N) :
  plain_name sub = true ->
  screenshot_path
    (Py.path_join (Py.path_join "screenshots" sub)
                  (screenshot_file (sanitize_title name) timestamp)).
Proof.
  intros Hs. unfold screenshot_file.
  replace ("screenshot_" +:+ sanitize_title name +:+ "_" +:+ Py.str_of_N timestamp +:+ ".png")
    with (("screenshot_" +:+ sanitize_title name +:+ "_" +:+ Py.str_of_N timestamp) +:+ ".png")
    by (rewrite !app_assoc_string; reflexivity).
  apply screenshot_path_join; [exact Hs|].
  rewrite !plain_name_app, sanitize_title_plain, str_of_N_plain. reflexivity.
Qed.

Lemma screenshot_path_buttons (job_title : string) :
  screenshot_path
    (Py.path_join (Py.path_join "screenshots" "missing_easy_apply")
                  ("screenshot_job_" +:+ sanitize_title job_title +:+ ".png")).
Proof.
  replace ("screenshot_job_" +:+ sanitize_title job_title +:+ ".png")
    with (("screenshot_job_" +:+ sanitize_title job_title) +:+ ".png")
    by (rewrite !app_assoc_string; reflexivity).
  apply screenshot_path_join; [reflexivity|].
  rewrite plain_name_app, sanitize_title_plain. reflexivity.
Qed.

#[global] Hint Extern 1 (plain_name _ = true) => reflexivity : within.
#[global] Hint Resolve screenshot_dir_join screenshot_path_capture screenshot_path_buttons
  : within.

(** ** The calls of revision 20240925103923 *)

Section Calls0925.

Variable SEARCH_TERMS : string.
Variables MIN_PAUSE MAX_PAUSE : Z.

Local Abbreviation expected := (expected_call_0925 SEARCH_TERMS MIN_PAUSE MAX_PAUSE).

Lemma capture_screenshot_calls (name sub : string) :
  plain_name sub = true -> within any_world expected (capture_screenshot name sub).
Proof. intros Hs. unfold capture_screenshot, create_directory. within_auto. Qed.

Lemma log_available_buttons_calls (job_card : Elem) (job_title : string) :
  within any_world expected (log_available_buttons job_card job_title).
Proof. unfold log_available_buttons. within_auto. Qed.

Hint Resolve capture_screenshot_calls log_available_buttons_calls : within.

Lemma apply_to_job_calls (job_card : Elem) (job_title : string) (applied_jobs : nat) :
  within any_world expected (Rev0925.apply_to_job job_card job_title applied_jobs).
Proof.
  unfold Rev0925.apply_to_job, Rev0925.apply_to_job_guarded, Rev0925.apply_to_job_body,
    Rev0925.apply_to_job_handlers,
    Rev0925.apply_to_job_attempt, apply_to_job_cleanup.
  within_auto.
Qed.

Hint Resolve apply_to_job_calls : within.

Lemma pause_between_applications_calls :
  within any_world expected (Rev0925.pause_between_applications MIN_PAUSE MAX_PAUSE).
Proof.
  intros w. split; [exact I|].
  unfold Rev0925.pause_between_applications, randint.
  rewrite bind_run. destruct (MAX_PAUSE <? MIN_PAUSE) eqn:E; cbn.
  - apply List.Forall_cons; [split; reflexivity | apply List.Forall_nil].
  - apply Z.ltb_ge in E.
    set (d := MIN_PAUSE + Z.of_N (hd 0%N (rng w)) mod (MAX_PAUSE - MIN_PAUSE + 1)).
    assert (Hd : MIN_PAUSE <= d <= MAX_PAUSE).
    { pose proof (Z.mod_pos_bound (Z.of_N (hd 0%N (rng w))) (MAX_PAUSE - MIN_PAUSE + 1)).
      unfold d. lia. }
    unfold sleep_as.
    destruct (d <? 0); cbn;
      repeat (first [apply List.Forall_cons | apply List.Forall_nil]);
      first [exact Hd | exact I | split; reflexivity].
Qed.

Hint Resolve pause_between_applications_calls : within.

Lemma loop_body_calls (applied_jobs : nat) (index : N) (job_card : Elem) :
  within any_world expected
    (Rev0925.loop_body MIN_PAUSE MAX_PAUSE applied_jobs index job_card).
Proof. unfold Rev0925.loop_body, Rev0925.job_title_of. within_auto. Qed.

Lemma main_loop_calls (applied_jobs : nat) (job_cards : list Elem) (index : N) :
  within any_world expected
    (Rev0925.main_loop MIN_PAUSE MAX_PAUSE applied_jobs index job_cards).
Proof.
  revert index. induction job_cards as [|job_card rest IH]; intros index; cbn.
  - within_rule within_ret.
  - within_rule within_bind; [apply loop_body_calls | intros _; apply IH].
Qed.

Hint Resolve main_loop_calls : within.

Lemma main_calls :
  within any_world expected (Rev0925.main SEARCH_TERMS MIN_PAUSE MAX_PAUSE).
Proof.
  unfold Rev0925.main, Rev0925.activate_easy_apply_filter,
    Rev0925.activate_easy_apply_filter_body.
  within_auto.
Qed.

End Calls0925.

Lemma read_pause_range_value (cfg : gmap string string) (w : World) (range : Z * Z) :
  res (Rev0925.read_pause_range cfg w) = Ok range ->
  config_int cfg "PauseDurationMin" = Some (fst range)
  /\ config_int cfg "PauseDurationMax" = Some (snd range).
Proof.
  enough (H : wp (Rev0925.read_pause_range cfg)
                 (fun r _ _ => forall range, r = Ok range ->
                    config_int cfg "PauseDurationMin" = Some (fst range)
                    /\ config_int cfg "PauseDurationMax" = Some (snd range)) w []).
  { intros Hr. exact (H range Hr). }
  unfold Rev0925.read_pause_range, config_int. wp_run; try discriminate.
  intros ? [= <-]. cbn. split; assumption.
Qed.

(** Every call of a run of the script is one of the expected calls. *)
Lemma script_calls_0925 (cfg : gmap string string) :
  emits (expected_call_0925 (config_text cfg "SearchTerms")
                            (config_Z cfg "PauseDurationMin")
                            (config_Z cfg "PauseDurationMax"))
        (Rev0925.script cfg).
Proof.
  unfold Rev0925.script, emits, config_text, config_get.
  within_rule within_bind; [within_auto | intros _].
  destruct (cfg !! "SearchTerms") as [terms|]; [|within_rule within_raise_bind].
  within_rule within_ret_bind.
  destruct (cfg !! "Email") as [email|]; [|within_rule within_raise_bind].
  within_rule within_ret_bind.
  destruct (cfg !! "Password") as [password|]; [|within_rule within_raise_bind].
  within_rule within_ret_bind.
  within_rule within_bind_val.
  - unfold Rev0925.read_pause_range. within_auto.
  - intros w range. apply read_pause_range_value.
  - cbn beta. intros range [Hmin Hmax]. unfold config_Z. rewrite Hmin, Hmax. cbn [default].
    within_rule within_bind; [unfold Rev0925.launch_browser; within_auto |].
    intros _. apply main_calls.
Qed.

(** ** The calls of revision 20240920204534 *)

Section Calls0920.

Variables SEARCH_TERMS RESUME_PATH : string.
Variable PAUSE_DURATION : Z.
Variables EMAIL PASSWORD : string.

Local Abbreviation expected :=
  (expected_call_0920 SEARCH_TERMS RESUME_PATH PAUSE_DURATION EMAIL PASSWORD).

Lemma login_to_dice_calls :
  within any_world expected (Rev0920.login_to_dice EMAIL PASSWORD).
Proof. unfold Rev0920.login_to_dice. within_auto. Qed.

Lemma apply_to_job_calls_0920 (job_link : string) :
  within any_world expected (Rev0920.apply_to_job RESUME_PATH job_link).
Proof.
  unfold Rev0920.apply_to_job, Rev0920.logging_info, Rev0920.logging_error. within_auto.
Qed.

Hint Resolve login_to_dice_calls apply_to_job_calls_0920 : within.

Lemma loop_body_calls_0920 (id : N) :
  within any_world expected
    (Rev0920.loop_body RESUME_PATH PAUSE_DURATION (mkElem loc_title_links id)).
Proof. unfold Rev0920.loop_body. within_auto. Qed.

Lemma main_loop_calls_0920 (ids : list N) :
  within any_world expected
    (Rev0920.main_loop RESUME_PATH PAUSE_DURATION (map (mkElem loc_title_links) ids)).
Proof.
  induction ids as [|id ids IH]; cbn.
  - within_rule within_ret.
  - within_rule within_bind; [apply loop_body_calls_0920 | intros _; apply IH].
Qed.

Hint Resolve main_loop_calls_0920 : within.

Lemma main_calls_0920 :
  within any_world expected
    (Rev0920.main SEARCH_TERMS RESUME_PATH PAUSE_DURATION EMAIL PASSWORD).
Proof. unfold Rev0920.main. within_auto. Qed.

End Calls0920.

Lemma script_calls_0920 (cfg : gmap string string) :
  emits (expected_call_0920 (config_text cfg "SearchTerms") (config_text cfg "ResumePath")
                            (config_Z cfg "PauseDuration")
                            (config_text cfg "Email") (config_text cfg "Password"))
        (Rev0920.script cfg).
Proof.
  unfold Rev0920.script, emits, config_text, config_Z, config_int, config_get, py_int.
  within_rule within_bind; [within_auto | intros _].
  destruct (cfg !! "SearchTerms") as [terms|]; [|within_rule within_raise_bind].
  within_rule within_ret_bind.
  destruct (cfg !! "ResumePath") as [resume|]; [|within_rule within_raise_bind].
  within_rule within_ret_bind.
  destruct (cfg !! "PauseDuration") as [pause|]; [|within_rule within_raise_bind].
  within_rule within_ret_bind. cbn [mbind option_bind default].
  destruct (Py.int pause) as [seconds|]; [|within_rule within_raise_bind].
  within_rule within_ret_bind.
  destruct (cfg !! "Email") as [email|]; [|within_rule within_raise_bind].
  within_rule within_ret_bind.
  destruct (cfg !! "Password") as [password|]; [|within_rule within_raise_bind].
  within_rule within_ret_bind. cbn [default].
  within_auto. apply main_calls_0920.
Qed.

(** ** C7: the files the script writes *)

Lemma expected_0925_writes (S : string) (lo hi : Z) (e : Event) :
  expected_call_0925 S lo hi e -> writes_log_or_screenshot e.
Proof.
  destruct e as [c ok]. unfold expected_call_0925, writes_log_or_screenshot.
  destruct c; cbn; auto; contradiction.
Qed.

Lemma expected_0920_writes (S R : string) (p : Z) (E P : string) (e : Event) :
  expected_call_0920 S R p E P e -> writes_log_or_screenshot e.
Proof.
  destruct e as [c ok]. unfold expected_call_0920, writes_log_or_screenshot.
  destruct c; cbn; auto; contradiction.
Qed.

(** C7: in every run of the last revision and of the first one, each file
    the program creates or writes is the log file [application_log.txt] or a
    PNG [screenshots/<subfolder>/<file>.png], and each directory it creates
    is [screenshots/<subfolder>]; nothing else is written. *)
Theorem only_log_and_screenshots_written (cfg : gmap string string) (w : World) :
  Forall writes_log_or_screenshot (log (Rev0925.script cfg w))
  /\ Forall writes_log_or_screenshot (log (Rev0920.script cfg w)).
Proof.
  split.
  - eapply Forall_impl; [apply script_calls_0925 | apply expected_0925_writes].
  - eapply Forall_impl; [apply script_calls_0920 | apply expected_0920_writes].
Qed.

(** ** C10: the pause between two applications *)

Lemma expected_0925_pause (S : string) (lo hi : Z) (e : Event) :
  expected_call_0925 S lo hi e -> pause_within lo hi e.
Proof.
  destruct e as [c ok]. unfold expected_call_0925, pause_within.
  destruct c; cbn; auto.
Qed.

Lemma read_pause_range_exits (cfg : gmap string string) :
  config_int cfg "PauseDurationMin" = None \/ config_int cfg "PauseDurationMax" = None ->
  hoare (fun _ t => Forall no_launch t) (Rev0925.read_pause_range cfg)
        (fun r _ t => r = Raised (SystemExit 1) /\ Forall no_launch t).
Proof.
  intros H w t Ht. change (wp (Rev0925.read_pause_range cfg)
    (fun r _ t => r = Raised (SystemExit 1) /\ Forall no_launch t) w t).
  unfold Rev0925.read_pause_range, config_int in *.
  wp_run;
    try (split; [reflexivity | apply Forall_app; split; [exact Ht | repeat constructor]]).
  exfalso. cbn in H. rewrite E0, E2 in H. destruct H; discriminate.
Qed.

Lemma script_exits_without_pause_range (cfg : gmap string string) (w : World) :
  config_int cfg "PauseDurationMin" = None \/ config_int cfg "PauseDurationMax" = None ->
  exit_status (res (Rev0925.script cfg w)) = 1
  /\ Forall no_launch (log (Rev0925.script cfg w)).
Proof.
  intros H.
  change (wp (Rev0925.script cfg)
             (fun r _ t => exit_status r = 1 /\ Forall no_launch t) w []).
  unfold Rev0925.script. wp_run; try (split; [reflexivity | repeat constructor]).
  eapply wp_summary; [apply (read_pause_range_exits cfg H) | repeat constructor |].
  intros r w' t' [-> Ht]. split; [reflexivity | exact Ht].
Qed.

(** C10: when [PauseDurationMin] and [PauseDurationMax] parse as integers
    [lo <= hi], every pause between two applications in [main]'s loop lasts
    at least [lo] and at most [hi] seconds; when either key is missing or
    is not an integer, the program exits with status 1 and the browser is
    never launched. *)
Theorem pauses_within_configured_range (cfg : gmap string string) (w : World) :
  (forall lo hi,
      config_int cfg "PauseDurationMin" = Some lo ->
      config_int cfg "PauseDurationMax" = Some hi ->
      lo <= hi ->
      Forall (pause_within lo hi) (log (Rev0925.script cfg w)))
  /\ (config_int cfg "PauseDurationMin" = None \/ config_int cfg "PauseDurationMax" = None ->
      exit_status (res (Rev0925.script cfg w)) = 1
      /\ Forall no_launch (log (Rev0925.script cfg w))).
Proof.
  split.
  - intros lo hi Hlo Hhi _.
    eapply Forall_impl; [apply script_calls_0925 |].
    unfold config_Z. rewrite Hlo, Hhi. apply expected_0925_pause.
  - apply script_exits_without_pause_range.
Qed.

Lemma pauses_within_configured_range_witness :
  Forall (pause_within 2 5) (log (Rev0925.script Examples.config Examples.one_application))
  /\ exit_status (res (Rev0925.script Examples.config_without_max
                         Examples.one_application)) = 1
  /\ Forall no_launch (log (Rev0925.script Examples.config_without_max
                              Examples.one_application)).
Proof.
  split.
  - apply (proj1 (pauses_within_configured_range Examples.config Examples.one_application) 2 5);
      [vm_compute; reflexivity | vm_compute; reflexivity | lia].
  - apply (proj2 (pauses_within_configured_range Examples.config_without_max
                    Examples.one_application)).
    right. vm_compute. reflexivity.
Defined.

(** ** C5: the filter *)

Lemma contains_app_r (needle p s : string) :
  Py.contains needle s = true -> Py.contains needle (p +:+ s) = true.
Proof.
  intros H. induction p as [|c p IH]; [exact H|].
  rewrite app_String. cbn [Py.contains]. rewrite IH. apply orb_true_r.
Qed.

Lemma filtered_url_has_filter (terms : string) :
  Py.contains Rev0925.expected_params (Rev0925.filtered_url terms) = true.
Proof. unfold Rev0925.filtered_url. do 2 apply contains_app_r. reflexivity. Qed.

Lemma has_window_url_of (h : Handle) (ws : list (Handle * string)) :
  has_window h ws = true -> exists u, url_of h ws = Some u.
Proof.
  induction ws as [|[h' u] ws IH]; cbn; [discriminate|].
  destruct (String.eqb h' h); cbn; eauto.
Qed.

Lemma url_of_set_url (h : Handle) (u : string) (ws : list (Handle * string)) :
  has_window h ws = true -> url_of h (set_url h u ws) = Some u.
Proof.
  induction ws as [|[h' u'] ws IH]; cbn; [discriminate|].
  destruct (String.eqb h' h) eqn:E; cbn; rewrite E; auto.
Qed.

Lemma failure_none_window (c : Call) (r : Reply) (w : World) :
  window_neutral c = true \/ (exists u, c = Get u) ->
  match c with MakeDirs _ | WindowHandles => False | _ => True end ->
  failure c r w = None -> has_window (focus w) (windows w) = true.
Proof.
  intros Hc Hm. unfold failure.
  destruct c; try contradiction; try (destruct Hc as [Hc|[u Hc]]; discriminate);
    destruct (has_window (focus w) (windows w)); auto; discriminate.
Qed.

(** [capture_screenshot] never raises, leaves the windows and the sets as
    they are, and asks the driver for one screenshot. *)
Lemma wp_capture_screenshot (name sub : string) (Q : Result unit -> Assertion)
    (w : World) (t : list Event) :
  (forall w' t',
      same_windows w w' -> heap w' = heap w -> original_window w' = original_window w ->
      Exists (fun e => is_screenshot_attempt e = true) t' ->
      Q (Ok tt) w' (t ++ t')) ->
  wp (capture_screenshot name sub) Q w t.
Proof.
  intros HQ. unfold capture_screenshot, create_directory.
  wp_run; rewrite <- ?app_assoc; apply HQ; cbn;
    try (split; reflexivity); try reflexivity;
    repeat first [ left; reflexivity | right ].
Qed.

Lemma url_has_filter_eq (w : World) :
  has_window (focus w) (windows w) = true ->
  url_has_filter w = Py.contains Rev0925.expected_params (default "" (current_url_of w)).
Proof.
  intros H. unfold url_has_filter, current_url_of.
  destruct (has_window_url_of _ _ H) as [u ->]. reflexivity.
Qed.

(** Membership in a log built by appending. *)
Ltac in_log :=
  rewrite ?Exists_app; cbn [took_effect];
  first [ assumption
        | left; in_log
        | right; in_log
        | apply Exists_cons_hd; first [reflexivity | split; reflexivity] ].

(** C5: whenever [activate_easy_apply_filter] returns normally, the URL of
    the focused window contains ['filters.easyApply=true']: when it already
    did, the windows are left as they were; otherwise the function has
    navigated to the filtered search URL and waited for the job cards.  When
    the function does not return normally, whatever failed, it has asked
    for a screenshot, its last call is [driver.quit()], and it leaves by
    [exit(1)]. *)
Theorem activate_easy_apply_filter_outcome (terms : string) (w : World) :
  let o := Rev0925.activate_easy_apply_filter terms w in
  match res o with
  | Ok _ =>
      url_has_filter (post o) = true
      /\ (if url_has_filter w
          then windows (post o) = windows w /\ focus (post o) = focus w
          else Exists (is_get (Rev0925.filtered_url terms)) (log o)
               /\ Exists is_wait_for_cards (log o))
  | Raised e =>
      e = SystemExit 1
      /\ Exists (fun e => is_screenshot_attempt e = true) (log o)
      /\ last (log o) = Some (Ev Quit true)
  end.
Proof.
  change (wp (Rev0925.activate_easy_apply_filter terms)
    (fun r w' t => match r with
     | Ok _ => url_has_filter w' = true
      /\ (if url_has_filter w
          then windows w' = windows w /\ focus w' = focus w
          else Exists (is_get (Rev0925.filtered_url terms)) t
               /\ Exists is_wait_for_cards t)
     | Raised e => e = SystemExit 1
      /\ Exists (fun e => is_screenshot_attempt e = true) t
      /\ last t = Some (Ev Quit true) end) w []).
  unfold Rev0925.activate_easy_apply_filter, Rev0925.activate_easy_apply_filter_body.
  autounfold with api.
  repeat first [wp_step | wp_select | apply wp_capture_screenshot; intros ? ? ? ? ? ?].
  all: try discriminate.
  all: try (split; [reflexivity | split; [in_log | apply last_snoc]]).
  - (* navigated *)
    pose proof (failure_none_window CurrentUrl _ w (or_introl eq_refl) I F) as Hw.
    cbn [effect] in *.
    split.
    + unfold url_has_filter, current_url_of.
      cbn [effect set_windows set_oracle windows focus].
      rewrite url_of_set_url by exact Hw. apply filtered_url_has_filter.
    + rewrite (url_has_filter_eq w Hw).
      apply negb_true_iff in E. cbn in E. unfold current_url_of in *. rewrite E.
      split; in_log.
  - (* already filtered *)
    pose proof (failure_none_window CurrentUrl _ w (or_introl eq_refl) I F) as Hw.
    cbn [effect] in *. apply negb_false_iff in E. cbn in E.
    assert (Hf : url_has_filter w = true) by (rewrite (url_has_filter_eq w Hw); exact E).
    split; [exact Hf | rewrite Hf; split; reflexivity].
Qed.

(** ** Which exceptions leave a program *)

Section Raises.

Context (psi : Exc -> Prop).

Lemma raises_ret {A} (a : A) : raises psi (mret a).
Proof. intros w e. discriminate. Qed.

Lemma raises_gets {A} (f : World -> A) : raises psi (gets f).
Proof. intros w e. discriminate. Qed.

Lemma raises_emit (c : Call) : raises psi (emit c).
Proof. intros w e. discriminate. Qed.

Lemma raises_print (msg : string) : raises psi (print msg).
Proof. intros w e. discriminate. Qed.

Lemma raises_raise {A} (e : Exc) : psi e -> raises psi (@raise A e).
Proof. intros H w e'. cbn. intros [= <-]. exact H. Qed.

Lemma raises_raise_bind {A B} (e : Exc) (f : A -> M B) :
  psi e -> raises psi (raise e ≫= f).
Proof. intros H w e'. cbn. intros [= <-]. exact H. Qed.

Lemma raises_bind {A B} (m : M A) (f : A -> M B) :
  raises psi m -> (forall a, raises psi (f a)) -> raises psi (m ≫= f).
Proof.
  intros Hm Hf w e. rewrite bind_run. destruct (res (m w)) as [a|e'] eqn:E; cbn.
  - apply Hf.
  - intros [= <-]. eapply Hm, E.
Qed.

Lemma raises_try_except {A} (psi1 : Exc -> Prop) (m : M A) (cs : list (Clause A)) :
  raises psi1 m ->
  (forall e, psi1 e ->
             match select cs e with
             | Some h => raises psi h
             | None => psi e
             end) ->
  raises psi (try_except m cs).
Proof.
  intros Hm Hh w e. unfold try_except.
  destruct (res (m w)) as [a|e'] eqn:E; [rewrite E; discriminate|].
  specialize (Hh e' (Hm w e' E)). destruct (select cs e') as [h|]; cbn.
  - apply Hh.
  - rewrite E. intros [= <-]. exact Hh.
Qed.

Lemma raises_try_finally {A} (m : M A) (fin : M unit) :
  raises psi m -> raises psi fin -> raises psi (try_finally m fin).
Proof.
  intros Hm Hf w e. unfold try_finally. cbn.
  destruct (res (fin (post (m w)))) eqn:E.
  - apply Hm.
  - intros [= <-]. eapply Hf, E.
Qed.

Lemma raises_mapM {A B} (f : A -> M B) (l : list A) :
  (forall a, raises psi (f a)) -> raises psi (mapM f l).
Proof.
  intros Hf. induction l as [|a l IH]; cbn.
  - apply raises_ret.
  - apply raises_bind; [apply Hf|]. intros b.
    apply raises_bind; [apply IH|]. intros k. apply raises_ret.
Qed.

Lemma raises_set_add (l : nat) (x : string) : raises psi (set_add l x).
Proof. intros w e. discriminate. Qed.

Lemma raises_unbind_original_window : raises psi unbind_original_window.
Proof. intros w e. discriminate. Qed.

Lemma raises_assign_original_window (h : Handle) : raises psi (assign_original_window h).
Proof. intros w e. discriminate. Qed.

End Raises.

Lemma raises_perform (c : Call) : raises an_Exception (perform c).
Proof.
  intros w e. unfold perform.
  destruct (failure c _ w) as [e'|] eqn:F; cbn; [|discriminate].
  intros [= <-]. eapply failure_is_Exception, F.
Qed.

Lemma raises_sleep_as (mk : Z -> Call) (secs : Z) : raises an_Exception (sleep_as mk secs).
Proof.
  intros w e. unfold sleep_as. destruct (secs <? 0); cbn; [|discriminate].
  intros [= <-]. reflexivity.
Qed.

Lemma raises_weaken {A} (psi psi' : Exc -> Prop) (m : M A) :
  raises psi m -> (forall e, psi e -> psi' e) -> raises psi' m.
Proof. intros H Hw w e Hr. eapply Hw, H, Hr. Qed.

Create HintDb raises.

(** The clause selected by an exception known to be an [Exception]. *)
Ltac raises_clause :=
  let e := fresh "e" in
  let He := fresh "He" in
  intros e He; unfold an_Exception in He;
  cbn [select fst snd];
  repeat first
    [ rewrite He
    | match goal with
      | |- match (if ?b then _ else _) with _ => _ end => destruct b; cbv beta iota
      end ];
  cbv beta iota.

Ltac raises_step :=
  lazymatch goal with
  | |- raises _ ((match (if ?b then _ else _) with _ => _ end) ≫= _) =>
      destruct b; cbv beta iota
  | |- raises _ (match (if ?b then _ else _) with _ => _ end) => destruct b; cbv beta iota
  | |- raises _ ((match ?x with _ => _ end) ≫= _) => destruct x; cbv beta iota
  | |- raises _ ((if ?b then _ else _) ≫= _) => destruct b; cbv beta iota
  | |- raises _ (raise _ ≫= _) => apply raises_raise_bind; reflexivity
  | |- raises _ (_ ≫= _) => apply raises_bind; [| intros ?]
  | |- raises _ (mret _) => apply raises_ret
  | |- raises _ (raise _) => apply raises_raise; reflexivity
  | |- raises _ (gets _) => apply raises_gets
  | |- raises _ (emit _) => apply raises_emit
  | |- raises _ (print _) => apply raises_print
  | |- raises _ (set_add _ _) => apply raises_set_add
  | |- raises _ unbind_original_window => apply raises_unbind_original_window
  | |- raises _ (assign_original_window _) => apply raises_assign_original_window
  | |- raises _ (mapM _ _) => apply raises_mapM; intros ?
  | |- raises _ (perform _) => apply raises_perform
  | |- raises _ (sleep _) => apply raises_sleep_as
  | |- raises _ (sleep_as _ _) => apply raises_sleep_as
  | |- raises _ (try_except _ _) =>
      apply (raises_try_except _ an_Exception); [| raises_clause]
  | |- raises _ (try_finally _ _) => apply raises_try_finally
  | |- raises _ (if ?b then _ else _) => destruct b; cbv beta iota
  | |- raises _ (match ?x with _ => _ end) => destruct x; cbv beta iota
  | |- an_Exception _ => first [assumption | reflexivity]
  | |- is_Exception _ = true => first [assumption | reflexivity]
  | |- raises _ _ =>
      first [ solve [auto with raises]
            | solve [eapply raises_weaken; [solve [auto with raises] | intros ? []]]
            | progress autounfold with api ]
  end.

Ltac raises_auto := autounfold with api; repeat raises_step.

(** ** C3: the errors of an attempt *)

Lemma capture_screenshot_never_raises (name sub : string) :
  raises no_exception (capture_screenshot name sub).
Proof. unfold capture_screenshot, create_directory. raises_auto. Qed.

Lemma log_available_buttons_never_raises (job_card : Elem) (job_title : string) :
  raises no_exception (log_available_buttons job_card job_title).
Proof. unfold log_available_buttons. raises_auto. Qed.

#[global] Hint Resolve capture_screenshot_never_raises log_available_buttons_never_raises
  : raises.

Lemma apply_to_job_body_raises (job_card : Elem) (job_title : string) (applied_jobs : nat) :
  raises an_Exception (Rev0925.apply_to_job_body job_card job_title applied_jobs).
Proof.
  unfold Rev0925.apply_to_job_body, Rev0925.apply_to_job_attempt. raises_auto.
Qed.

Lemma apply_to_job_guarded_never_raises (job_card : Elem) (job_title : string)
    (applied_jobs : nat) :
  raises no_exception (Rev0925.apply_to_job_guarded job_card job_title applied_jobs).
Proof.
  unfold Rev0925.apply_to_job_guarded, Rev0925.apply_to_job_handlers.
  apply (raises_try_except _ an_Exception); [apply apply_to_job_body_raises|].
  raises_clause; raises_auto.
Qed.

Lemma wp_intro {A} (m : M A) (Q : Result A -> Assertion) (w : World) :
  wp m Q w [] -> Q (res (m w)) (post (m w)) (log (m w)).
Proof. intros H. exact H. Qed.

Lemma try_finally_res {A} (m : M A) (fin : M unit) (w : World) :
  res (try_finally m fin w)
  = match res (fin (post (m w))) with Ok _ => res (m w) | Raised e => Raised e end.
Proof. reflexivity. Qed.

Lemma res_bind_ok {A B} (m : M A) (f : A -> M B) (w : World) (a : A) :
  res (m w) = Ok a -> res ((m ≫= f) w) = res (f a (post (m w))).
Proof. intros H. rewrite bind_run, H. reflexivity. Qed.

Lemma wp_never_raises {A} (m : M A) (Q : Result A -> Assertion) (w : World) (t : list Event) :
  raises no_exception m -> (forall a w' t', Q (Ok a) w' (t ++ t')) -> wp m Q w t.
Proof.
  intros Hm HQ. unfold wp. destruct (res (m w)) as [a|e] eqn:E; [apply HQ|].
  destruct (Hm w e E).
Qed.

Lemma try_except_handled {A} (m : M A) (cs : list (Clause A)) (w : World) (e : Exc)
    (h : M A) :
  res (m w) = Raised e -> select cs e = Some h ->
  log (try_except m cs w) = log (m w) ++ log (h (post (m w))).
Proof. intros Hr Hs. unfold try_except. rewrite Hr, Hs. reflexivity. Qed.

(** Either [except] clause of [apply_to_job] prints its message and asks for
    a screenshot. *)
Lemma handlers_report (job_card : Elem) (job_title : string) (e : Exc) (w : World) :
  is_Exception e = true ->
  exists h,
    select (Rev0925.apply_to_job_handlers job_card job_title) e = Some h
    /\ Exists (is_error_print job_title) (log (h w))
    /\ Exists (fun e => is_screenshot_attempt e = true) (log (h w)).
Proof.
  intros He. unfold Rev0925.apply_to_job_handlers. cbn [select]. rewrite He.
  destruct (is_NoSuchElement_or_Timeout e); eexists; (split; [reflexivity|]);
    apply (wp_intro _ (fun _ _ t => Exists (is_error_print job_title) t
                         /\ Exists (fun e => is_screenshot_attempt e = true) t)).
  - wp_run. apply wp_never_raises; [apply log_available_buttons_never_raises|].
    intros _ w' t'. apply wp_capture_screenshot. intros w'' t'' _ _ _ Hs.
    split; [|in_log]. rewrite !Exists_app. do 2 left. right. apply Exists_cons_hd.
    exists e. left. reflexivity.
  - wp_run. apply wp_capture_screenshot. intros w'' t'' _ _ _ Hs.
    split; [|in_log]. rewrite !Exists_app. left. right. apply Exists_cons_hd.
    exists e. right. reflexivity.
Qed.

Lemma pause_returns (lo hi : Z) (w : World) :
  0 <= lo -> lo <= hi -> res (Rev0925.pause_between_applications lo hi w) = Ok tt.
Proof.
  intros H0 Hle. unfold Rev0925.pause_between_applications, randint.
  rewrite bind_run. destruct (hi <? lo) eqn:E; [apply Z.ltb_lt in E; lia|]. cbn.
  pose proof (Z.mod_pos_bound (Z.of_N (hd 0%N (rng w))) (hi - lo + 1)).
  unfold sleep_as.
  destruct (lo + Z.of_N (hd 0%N (rng w)) `mod` (hi - lo + 1) <? 0) eqn:E'; [|reflexivity].
  apply Z.ltb_lt in E'. lia.
Qed.

Lemma guarded_returns (job_card : Elem) (job_title : string) (applied_jobs : nat)
    (w : World) :
  res (Rev0925.apply_to_job_guarded job_card job_title applied_jobs w) = Ok tt.
Proof.
  destruct (res (Rev0925.apply_to_job_guarded job_card job_title applied_jobs w))
    as [[]|e] eqn:E; [reflexivity|].
  destruct (apply_to_job_guarded_never_raises _ _ _ _ _ E).
Qed.

(** [apply_to_job] ends as its [finally] block ends. *)
Lemma apply_to_job_res (job_card : Elem) (job_title : string) (applied_jobs : nat)
    (w : World) :
  res (Rev0925.apply_to_job job_card job_title applied_jobs w)
  = res (apply_to_job_cleanup job_title
           (post (Rev0925.apply_to_job_guarded job_card job_title applied_jobs
                    (post (unbind_original_window w))))).
Proof.
  unfold Rev0925.apply_to_job.
  rewrite (res_bind_ok unbind_original_window _ w tt eq_refl).
  rewrite try_finally_res, guarded_returns.
  destruct (res (apply_to_job_cleanup job_title _)) as [[]|]; reflexivity.
Qed.

(** C3 (amended): every exception raised in the [try] block of
    [apply_to_job] is caught by one of its [except] clauses, which prints
    an error message and asks for a screenshot; so [apply_to_job] ends as
    its [finally] block ends, and it returns normally whenever that block
    raises nothing.  When it does, and the pause range is not empty or
    negative, the pause returns too, and [main]'s loop goes on with the next
    job card. *)
Theorem apply_to_job_catches_attempt_errors (job_card : Elem) (job_title : string)
    (applied_jobs : nat) (w : World) :
  let w1 := post (unbind_original_window w) in
  let guarded := Rev0925.apply_to_job_guarded job_card job_title applied_jobs w1 in
  res guarded = Ok tt
  /\ (forall e,
         res (Rev0925.apply_to_job_body job_card job_title applied_jobs w1) = Raised e ->
         Exists (is_error_print job_title) (log guarded)
         /\ Exists (fun e => is_screenshot_attempt e = true) (log guarded))
  /\ res (Rev0925.apply_to_job job_card job_title applied_jobs w)
     = res (apply_to_job_cleanup job_title (post guarded))
  /\ (forall lo hi,
         res (apply_to_job_cleanup job_title (post guarded)) = Ok tt ->
         0 <= lo -> lo <= hi ->
         res ((Rev0925.apply_to_job job_card job_title applied_jobs;;
               Rev0925.pause_between_applications lo hi) w) = Ok tt)
  /\ (forall lo hi index rest w0,
         let first := Rev0925.loop_body lo hi applied_jobs index job_card w0 in
         let all := Rev0925.main_loop lo hi applied_jobs index (job_card :: rest) w0 in
         let others := Rev0925.main_loop lo hi applied_jobs (index + 1)%N rest (post first) in
         res first = Ok tt ->
         res all = res others /\ log all = log first ++ log others).
Proof.
  cbv zeta. split; [apply guarded_returns|]. split; [|split; [apply apply_to_job_res|split]].
  - intros e He.
    pose proof (apply_to_job_body_raises _ _ _ _ _ He) as Hexc.
    destruct (handlers_report job_card job_title e
                (post (Rev0925.apply_to_job_body job_card job_title applied_jobs
                         (post (unbind_original_window w)))) Hexc)
      as (h & Hsel & Hp & Hs).
    unfold Rev0925.apply_to_job_guarded.
    rewrite (try_except_handled _ _ _ _ _ He Hsel), !Exists_app. auto.
  - intros lo hi Hc H0 Hle.
    rewrite bind_run, apply_to_job_res, Hc. apply pause_returns; assumption.
  - intros lo hi index rest w0. cbv zeta. intros Hfirst.
    cbn [Rev0925.main_loop]. rewrite bind_run, Hfirst. split; reflexivity.
Qed.

(** C3 as stated fails: when the browser is gone, the [window_handles] query
    of the [finally] block raises, and the exception leaves [apply_to_job]. *)
Lemma apply_to_job_propagates_cleanup_error :
  res (Rev0925.apply_to_job Examples.job_card "Senior Angular Developer" 0
         Examples.browser_gone)
  = Raised (Selenium WebDriverException).
Proof. vm_compute. reflexivity. Qed.

Lemma apply_to_job_catches_attempt_errors_witness :
  let w1 := post (unbind_original_window Examples.title_not_clickable) in
  let guarded := Rev0925.apply_to_job_guarded Examples.job_card Examples.title 0 w1 in
  let first := Rev0925.loop_body 2 5 0 1 Examples.job_card Examples.card_title_not_clickable in
  let all := Rev0925.main_loop 2 5 0 1 [Examples.job_card] Examples.card_title_not_clickable in
  (Exists (is_error_print Examples.title) (log guarded)
   /\ Exists (fun e => is_screenshot_attempt e = true) (log guarded))
  /\ res ((Rev0925.apply_to_job Examples.job_card Examples.title 0;;
           Rev0925.pause_between_applications 2 5) Examples.title_not_clickable) = Ok tt
  /\ res all = Ok tt /\ log all = log first ++ [].
Proof.
  pose proof (apply_to_job_catches_attempt_errors Examples.job_card Examples.title 0
                Examples.title_not_clickable) as (_ & Hreport & _ & Hpause & Hnext).
  split; [|split].
  - apply (Hreport (Selenium TimeoutException)). vm_compute. reflexivity.
  - apply (Hpause 2 5); [vm_compute; reflexivity | lia | lia].
  - apply (Hnext 2 5 1%N [] Examples.card_title_not_clickable). vm_compute. reflexivity.
Defined.

(** ** C9: the set of applied jobs *)

Lemma stable_unchanged_heap (w0 : World) : stable (unchanged_heap w0) any_event same_heap.
Proof. intros w t w' t' H HR _. unfold unchanged_heap, same_heap in *. congruence. Qed.

Lemma stable_submitted : stable submitted any_event any_world.
Proof. intros w t w' t' H _ _. apply Exists_app. left. exact H. Qed.

Lemma stable_unchanged_or_submitted (w0 : World) :
  stable (unchanged_or_submitted w0) any_event same_heap.
Proof.
  intros w t w' t' [H|H] HR Hl.
  - left. eapply stable_unchanged_heap; eauto.
  - right. eapply stable_submitted; eauto. exact I.
Qed.

Lemma unchanged_incl (w0 w : World) (t : list Event) :
  unchanged_heap w0 w t -> unchanged_or_submitted w0 w t.
Proof. left; auto. Qed.

Lemma submitted_incl (w0 w : World) (t : list Event) :
  submitted w t -> unchanged_or_submitted w0 w t.
Proof. right; auto. Qed.

#[global] Hint Resolve stable_unchanged_heap stable_submitted stable_unchanged_or_submitted
  unchanged_incl submitted_incl : stable.

Lemma click_submit_walk (w0 : World) (id : N) :
  hoare (unchanged_heap w0) (perform (Click (mkElem (By_XPATH, xp_submit) id)))
    (fun r => match r with Ok _ => submitted | Raised _ => unchanged_heap w0 end).
Proof.
  intros w t H. unfold perform. destruct (failure _ _ _); cbn.
  - exact H.
  - apply Exists_app. right. constructor. cbn. split; reflexivity.
Qed.

Ltac special_submit :=
  eapply hoare_bind; [apply click_submit_walk | intros ? | intros ? ? ?; apply unchanged_incl ].

Lemma apply_to_job_adds_after_submit (w0 : World) (job_card : Elem) (job_title : string)
    (applied_jobs : nat) :
  hoare (unchanged_heap w0) (Rev0925.apply_to_job job_card job_title applied_jobs)
        (fun _ => unchanged_or_submitted w0).
Proof.
  unfold Rev0925.apply_to_job, Rev0925.apply_to_job_guarded, Rev0925.apply_to_job_body,
    Rev0925.apply_to_job_handlers, Rev0925.apply_to_job_attempt, apply_to_job_cleanup,
    log_available_buttons, capture_screenshot, create_directory.
  walk special_submit.
Qed.

Lemma apply_to_job_heap_grows (job_card : Elem) (job_title : string) (applied_jobs : nat) :
  keeps heap_grows (Rev0925.apply_to_job job_card job_title applied_jobs).
Proof.
  unfold Rev0925.apply_to_job, Rev0925.apply_to_job_guarded, Rev0925.apply_to_job_body,
    Rev0925.apply_to_job_handlers, Rev0925.apply_to_job_attempt, apply_to_job_cleanup,
    log_available_buttons, capture_screenshot, create_directory.
  within_auto.
Qed.

Lemma wp_unbind_original_window (Q : Result unit -> Assertion) (w : World) (t : list Event) :
  Q (Ok tt) (set_original_window None w) t -> wp unbind_original_window Q w t.
Proof. unfold wp. cbn. rewrite app_nil_r. auto. Qed.

Lemma apply_to_job_skips (job_card : Elem) (job_title : string) (applied_jobs : nat)
    (w : World) :
  job_title ∈ set_lookup applied_jobs w ->
  (length (windows w) <= 1)%nat ->
  let o := Rev0925.apply_to_job job_card job_title applied_jobs w in
  (exists ok, log o = [Ev (Print (skip_message job_title)) true; Ev WindowHandles ok])
  /\ windows (post o) = windows w /\ focus (post o) = focus w /\ heap (post o) = heap w.
Proof.
  intros Hin Hlen. cbv zeta.
  apply (wp_intro _ (fun _ w' t =>
           (exists ok, t = [Ev (Print (skip_message job_title)) true; Ev WindowHandles ok])
           /\ windows w' = windows w /\ focus w' = focus w /\ heap w' = heap w)).
  unfold Rev0925.apply_to_job, Rev0925.apply_to_job_guarded, Rev0925.apply_to_job_body,
    apply_to_job_cleanup.
  apply wp_bind, wp_unbind_original_window. cbv beta iota.
  apply wp_try_finally, wp_try_except. autounfold with api.
  apply wp_bind, wp_gets. cbv beta iota.
  replace (set_lookup applied_jobs (set_original_window None w))
    with (set_lookup applied_jobs w) by reflexivity.
  rewrite bool_decide_true by exact Hin.
  wp_run.
  all: try solve [exfalso; apply Nat.ltb_lt in E; unfold handles in E; cbn in E;
                  rewrite length_map in E; lia].
  all: split; [eexists; reflexivity | auto].
Qed.

Lemma hoare_run {A} (P : Assertion) (m : M A) (Q : Result A -> Assertion) (w : World) :
  hoare P m Q -> P w [] -> Q (res (m w)) (post (m w)) (log (m w)).
Proof. intros H Hw. exact (H w [] Hw). Qed.

(** C9 (amended): [apply_to_job] never removes an element from a set; called
    with a [job_title] already in [applied_jobs] while at most one window is
    open, it logs the skip message and the [window_handles] query of its
    [finally] block and nothing else, and leaves the windows and the sets
    as they were; and a [job_title] that it adds to [applied_jobs] is added
    after a click on the Submit button has returned. *)
Theorem applied_jobs_grows_and_guards (job_card : Elem) (job_title : string)
    (applied_jobs : nat) (w : World) :
  let o := Rev0925.apply_to_job job_card job_title applied_jobs w in
  (forall l, set_lookup l w ⊆ set_lookup l (post o))
  /\ (job_title ∈ set_lookup applied_jobs w ->
      (length (windows w) <= 1)%nat ->
      (exists ok, log o = [Ev (Print (skip_message job_title)) true; Ev WindowHandles ok])
      /\ windows (post o) = windows w /\ focus (post o) = focus w
      /\ heap (post o) = heap w)
  /\ (job_title ∉ set_lookup applied_jobs w ->
      job_title ∈ set_lookup applied_jobs (post o) ->
      Exists submit_clicked (log o)).
Proof.
  cbv zeta. split; [|split].
  - apply (apply_to_job_heap_grows job_card job_title applied_jobs w).
  - apply apply_to_job_skips.
  - intros Hout Hin.
    destruct (hoare_run _ _ _ w
                (apply_to_job_adds_after_submit w job_card job_title applied_jobs) eq_refl)
      as [Hsame|Hsub]; [|exact Hsub].
    exfalso. apply Hout. unfold set_lookup in *. unfold unchanged_heap in Hsame.
    rewrite <- Hsame. exact Hin.
Qed.

(** C9 as stated fails: called for a job already applied to, [apply_to_job]
    still runs its [finally] block, which asks the browser for its window
    handles. *)
Lemma apply_to_job_skip_queries_windows :
  let o := Rev0925.apply_to_job Examples.job_card Examples.title 0
             Examples.already_applied in
  Examples.title ∈ set_lookup 0 Examples.already_applied
  /\ log o = [Ev (Print (skip_message Examples.title)) true; Ev WindowHandles true]
  /\ is_driver_call WindowHandles = true.
Proof.
  split; [apply (bool_decide_unpack _); vm_compute; exact I|].
  vm_compute. split; reflexivity.
Qed.

Lemma applied_jobs_grows_and_guards_witness :
  let o := Rev0925.apply_to_job Examples.job_card Examples.title 0
             Examples.already_applied in
  heap (post o) = heap Examples.already_applied
  /\ Exists submit_clicked
       (log (Rev0925.apply_to_job Examples.job_card Examples.title 0
               Examples.before_application)).
Proof.
  split.
  - apply (applied_jobs_grows_and_guards Examples.job_card Examples.title 0
             Examples.already_applied).
    + apply (bool_decide_unpack _). vm_compute. exact I.
    + vm_compute. lia.
  - apply (applied_jobs_grows_and_guards Examples.job_card Examples.title 0
             Examples.before_application).
    + apply (bool_decide_unpack _). vm_compute. exact I.
    + apply (bool_decide_unpack _). vm_compute. exact I.
Defined.

(** ** Logs read by an automaton *)

Section AutomatonFacts.

Context {S Sym : Type}.
Variable classify : Event -> option Sym.
Variable delta : S -> Sym -> option S.

Local Abbreviation run := (log_run classify delta).
Local Abbreviation step := (log_step classify delta).

Lemma log_run_app (s : S) (t t' : list Event) :
  run s (t ++ t') = run s t ≫= fun s' => run s' t'.
Proof.
  revert s. induction t as [|e t IH]; intros s; cbn; [reflexivity|].
  destruct (step s e); cbn; [apply IH | reflexivity].
Qed.

Lemma log_run_loops (s : S) (t : list Event) :
  Forall (loops classify delta s) t -> run s t = Some s.
Proof.
  induction 1 as [|e t He _ IH]; cbn; [reflexivity|].
  unfold loops in He. rewrite He. exact IH.
Qed.

Lemma neutral_loops (s : S) (e : Event) : neutral classify e -> loops classify delta s e.
Proof. unfold neutral, loops, log_step. intros ->. reflexivity. Qed.

Lemma stable_reaches (s0 s : S) :
  stable (reaches classify delta s0 s) (loops classify delta s) any_world.
Proof.
  intros w t w' t' H _ Ht. unfold reaches in *.
  rewrite log_run_app, H. cbn. apply log_run_loops, Ht.
Qed.

Lemma stable_accepted (s0 : S) :
  stable (accepted classify delta s0) (neutral classify) any_world.
Proof.
  intros w t w' t' [s H] _ Ht. exists s.
  rewrite log_run_app, H. cbn. apply log_run_loops.
  eapply Forall_impl; [exact Ht | apply neutral_loops].
Qed.

Lemma reaches_accepted (s0 s : S) (w : World) (t : list Event) :
  reaches classify delta s0 s w t -> accepted classify delta s0 w t.
Proof. intros H. exists s. exact H. Qed.

Lemma hoare_accepted {A} (s0 : S) (m : M A) (Q : Result A -> Assertion) :
  (forall s, hoare (reaches classify delta s0 s) m Q) ->
  hoare (accepted classify delta s0) m Q.
Proof. intros H w t [s Hs]. exact (H s w t Hs). Qed.

(** A call on which the automaton moves. *)
Lemma hoare_perform_step (s0 s s_ok s_err : S) (c : Call) :
  (forall r, took_effect c r = true) ->
  step s (Ev c true) = Some s_ok ->
  step s (Ev c false) = Some s_err ->
  hoare (reaches classify delta s0 s) (perform c)
        (fun r => match r with
                  | Ok _ => reaches classify delta s0 s_ok
                  | Raised _ => reaches classify delta s0 s_err
                  end).
Proof.
  intros Heff Hok Herr w t H. unfold perform, reaches in *.
  destruct (failure _ _ _); cbn; rewrite log_run_app, H; cbn.
  - rewrite Herr. reflexivity.
  - rewrite Heff, Hok. reflexivity.
Qed.

End AutomatonFacts.

#[global] Hint Resolve stable_reaches stable_accepted reaches_accepted : stable.

(** The step of a walk at a call that moves the automaton. *)
Ltac step_perform :=
  idtac;
  lazymatch goal with
  | |- hoare (reaches _ _ _ _) (perform _ ≫= _) _ =>
      eapply hoare_bind;
      [ eapply hoare_perform_step;
        [ intros ?; reflexivity
        | first [ reflexivity | cbn; rewrite ?String.eqb_refl; reflexivity ]
        | reflexivity ]
      | intros ?; cbv beta iota
      | intros ? ? ?; cbv beta iota; solve [eauto with stable] ]
  end.

(** ** C6: the résumé is sent before Submit is clicked *)

Lemma within_all {A} (phi : Event -> Prop) (m : M A) :
  (forall e, phi e) -> within any_world phi m.
Proof. intros H w. split; [exact I|]. apply Forall_forall. intros e _. apply H. Qed.

(** Once the résumé is sent, every call is in order. *)
Lemma upload_sent_loops (path : string) (e : Event) :
  loops (upload_classify path) upload_delta true e.
Proof.
  unfold loops, log_step. destruct (upload_classify path e) as [[]|]; reflexivity.
Qed.

Lemma hoare_after_upload {A} (path : string) (m : M A) :
  hoare (reaches (upload_classify path) upload_delta false true) m
        (fun _ => resume_before_submit path).
Proof.
  eapply hoare_frame_to.
  - apply stable_reaches.
  - apply within_all, upload_sent_loops.
  - apply reaches_accepted.
Qed.

Lemma upload_step (path : string) (loc : Locator) (id : N) :
  is_upload_input loc = true ->
  hoare (reaches (upload_classify path) upload_delta false false)
        (perform (SendKeys (mkElem loc id) path))
        (fun r => match r with
                  | Ok _ => reaches (upload_classify path) upload_delta false true
                  | Raised _ => reaches (upload_classify path) upload_delta false false
                  end).
Proof.
  intros H. apply hoare_perform_step; [reflexivity| |];
    unfold log_step, upload_classify; cbn [ev_call ev_ok el_loc];
    rewrite H, ?String.eqb_refl; reflexivity.
Qed.

Ltac special_upload :=
  idtac;
  lazymatch goal with
  | |- hoare _ (perform (SendKeys _ _) ≫= _) _ =>
      eapply hoare_bind;
      [ apply upload_step; reflexivity
      | intros ?; apply hoare_after_upload
      | intros ? ? ?; apply reaches_accepted ]
  end.

Lemma apply_to_job_try_0921 (RESUME_PATH : string) (sent : bool) (next_by : By)
    (next_sel : string) (job_card : Elem) (job_title : string) (applied_jobs : nat) :
  In (next_by, next_sel) [(By_CSS_SELECTOR, css_btn_next); (By_XPATH, xp_next)] ->
  hoare (reaches (upload_classify RESUME_PATH) upload_delta false sent)
        (Rev0921.apply_to_job_try RESUME_PATH next_by next_sel job_card job_title applied_jobs)
        (fun _ => resume_before_submit RESUME_PATH).
Proof.
  intros Hnext. destruct sent; [apply hoare_after_upload|].
  unfold resume_before_submit, Rev0921.apply_to_job_try, Rev0921.apply_to_job_body,
    Rev0921.apply_to_job_handlers, Rev0921.apply_to_job_attempt, apply_to_job_cleanup,
    log_available_buttons, capture_screenshot, create_directory.
  destruct Hnext as [[= <- <-]|[[= <- <-]|[]]]; walk special_upload.
Qed.

Lemma apply_to_job_0921_in_order (RESUME_PATH : string) (job_card : Elem)
    (job_title : string) (applied_jobs : nat) :
  hoare (reaches (upload_classify RESUME_PATH) upload_delta false false)
        (Rev0921.apply_to_job RESUME_PATH job_card job_title applied_jobs)
        (fun _ => resume_before_submit RESUME_PATH).
Proof.
  unfold Rev0921.apply_to_job.
  eapply hoare_bind_frame;
    [apply stable_reaches | within_auto | apply reaches_accepted | intros ?].
  eapply hoare_bind;
    [apply apply_to_job_try_0921; cbn; auto | | intros ? ? ? H; exact H].
  intros [|]; cbv beta iota.
  - apply hoare_ret. auto.
  - apply hoare_accepted. intros s.
    eapply hoare_bind;
      [apply apply_to_job_try_0921; cbn; auto | | intros ? ? ? H; exact H].
    intros ?. apply hoare_ret. auto.
Qed.

Lemma apply_to_job_0920_in_order (RESUME_PATH job_link : string) :
  hoare (reaches (upload_classify RESUME_PATH) upload_delta false false)
        (Rev0920.apply_to_job RESUME_PATH job_link)
        (fun _ => resume_before_submit RESUME_PATH).
Proof.
  unfold resume_before_submit, Rev0920.apply_to_job, Rev0920.logging_info,
    Rev0920.logging_error.
  walk special_upload.
Qed.

(** What an accepted log says. *)
Lemma upload_run_sent (path : string) (t : list Event) :
  log_run (upload_classify path) upload_delta false t = Some true ->
  Exists (resume_sent path) t.
Proof.
  induction t as [|e t IH]; cbn; [discriminate|].
  unfold log_step. destruct (upload_classify path e) as [[]|] eqn:E; cbn.
  - intros _. left. destruct e as [c ok].
    unfold upload_classify in E. cbn [ev_call ev_ok] in E.
    destruct c; try discriminate; [destruct (Locator_eqb _ _); discriminate|].
    destruct (is_upload_input (el_loc e)) eqn:E1; destruct ok; cbn in E; try discriminate.
    destruct (String.eqb_spec text path); [|discriminate].
    unfold resume_sent. cbn. repeat split; [|assumption].
    unfold is_upload_input, Locator_eqb in E1.
    destruct (el_loc e) as [b s]. cbn in E1.
    apply orb_true_iff in E1 as [E1|E1]; apply andb_true_iff in E1 as [Hb Hs];
      apply String.eqb_eq in Hs; subst s; destruct b; try discriminate; auto.
  - discriminate.
  - intros H. right. apply IH, H.
Qed.

Lemma submit_clicked_classified (path : string) (e : Event) :
  submit_clicked e -> upload_classify path e = Some SubmitClick.
Proof.
  destruct e as [c ok]. unfold submit_clicked, upload_classify. cbn.
  destruct c; try contradiction. intros [-> _]. reflexivity.
Qed.

Lemma accepted_precedes (path : string) (w : World) (t : list Event) :
  resume_before_submit path w t -> precedes (resume_sent path) submit_clicked t.
Proof.
  intros [s H] t1 e t2 -> He.
  rewrite log_run_app in H.
  destruct (log_run _ _ false t1) as [[|]|] eqn:E1; cbn in H; try discriminate.
  - apply upload_run_sent, E1.
  - unfold log_step in H. rewrite (submit_clicked_classified path e He) in H.
    discriminate.
Qed.

Lemma expected_0925_no_upload (S path : string) (lo hi : Z) (e : Event) :
  expected_call_0925 S lo hi e -> ~ resume_sent path e.
Proof.
  destruct e as [c ok]. unfold expected_call_0925, resume_sent. cbn.
  destruct c; auto. intros [H _] [[H'|H'] _]; rewrite H in H'; discriminate H'.
Qed.

Lemma precedes_needs (a b : Event -> Prop) (t : list Event) :
  Exists b t -> Forall (fun e => ~ a e) t -> ~ precedes a b t.
Proof.
  intros Hb Ha H.
  apply List.Exists_exists in Hb as (e & Hin & He).
  apply List.in_split in Hin as (t1 & t2 & ->).
  specialize (H t1 e t2 eq_refl He).
  apply List.Exists_exists in H as (x & Hx & Hax).
  rewrite List.Forall_forall in Ha.
  apply (Ha x); [apply in_or_app; left; exact Hx | exact Hax].
Qed.

(** A member of a list that is given in full. *)
Ltac in_list := repeat first [ left; reflexivity | right ].

(** C6 (amended): in the revisions 20240920204534 and 20240921144401, in
    every call of [apply_to_job], every click on the Submit button that
    returns comes after [RESUME_PATH] was sent to the file-upload input; the
    last revision, 20240925103923, sends no résumé at all. *)
Theorem resume_sent_before_submit (RESUME_PATH : string) (job_card : Elem)
    (job_title job_link : string) (applied_jobs : nat) (cfg : gmap string string)
    (w : World) :
  precedes (resume_sent RESUME_PATH) submit_clicked
    (log (Rev0921.apply_to_job RESUME_PATH job_card job_title applied_jobs w))
  /\ precedes (resume_sent RESUME_PATH) submit_clicked
       (log (Rev0920.apply_to_job RESUME_PATH job_link w))
  /\ Forall (fun e => ~ resume_sent RESUME_PATH e) (log (Rev0925.script cfg w)).
Proof.
  split; [|split].
  - apply (accepted_precedes RESUME_PATH (post (Rev0921.apply_to_job RESUME_PATH job_card
                                                  job_title applied_jobs w))).
    apply (hoare_run _ _ _ w (apply_to_job_0921_in_order RESUME_PATH job_card job_title
                                applied_jobs)).
    reflexivity.
  - apply (accepted_precedes RESUME_PATH (post (Rev0920.apply_to_job RESUME_PATH job_link w))).
    apply (hoare_run _ _ _ w (apply_to_job_0920_in_order RESUME_PATH job_link)).
    reflexivity.
  - eapply Forall_impl; [apply script_calls_0925 | apply expected_0925_no_upload].
Qed.

(** C6 as stated fails: in the last revision an application goes through,
    Submit is clicked, and no résumé was sent. *)
Lemma last_revision_submits_without_resume :
  ~ precedes (resume_sent "cv.pdf") submit_clicked
      (log (Rev0925.apply_to_job Examples.job_card Examples.title 0
              Examples.before_application)).
Proof.
  apply precedes_needs.
  - apply List.Exists_exists. exists (Ev (Click (mkElem loc_submit 10)) true).
    split; [vm_compute; in_list | split; reflexivity].
  - eapply Forall_impl; [apply (apply_to_job_calls "" 0 0) | apply expected_0925_no_upload].
Qed.

(** ** C2: the shadow root *)

Lemma count_calls_cons (p : Event -> bool) (e : Event) (t : list Event) :
  count_calls p (e :: t) = ((if p e then 1 else 0) + count_calls p t)%nat.
Proof. unfold count_calls. cbn. destruct (p e); reflexivity. Qed.

Lemma shadow_classify_spec (e : Event) :
  match shadow_classify e with
  | None => is_shadow_eval e = false /\ is_shadow_find e = false /\ ~ submit_clicked e
  | Some SEval => is_shadow_eval e = true /\ is_shadow_find e = false /\ ~ submit_clicked e
  | Some SFind => is_shadow_eval e = false /\ is_shadow_find e = true /\ ~ submit_clicked e
  | Some SClick =>
      is_shadow_eval e = false /\ is_shadow_find e = false /\ ~ submit_clicked e
      /\ clicks_shadow_button e
  | Some SSubmit => is_shadow_eval e = false /\ is_shadow_find e = false
  end.
Proof.
  destruct e as [c ok].
  unfold shadow_classify, is_shadow_eval, is_shadow_find, submit_clicked,
    clicks_shadow_button.
  cbn [ev_call ev_ok].
  destruct c; try (repeat split; solve [auto]).
  - destruct sc; repeat split; auto.
  - destruct sc; repeat split; auto.
  - destruct (Locator_eqb (el_loc e) loc_btn_primary) eqn:E1.
    + unfold Locator_eqb in E1. destruct (el_loc e) as [b s]. cbn in E1.
      apply andb_true_iff in E1 as [Hb Hs]. apply String.eqb_eq in Hs. subst s.
      destruct b; try discriminate. repeat split; auto. intros [[=] _].
    + destruct (Locator_eqb (el_loc e) loc_submit) eqn:E2; repeat split; auto.
      intros [H _]. rewrite H in E2. discriminate E2.
  - destruct (String.eqb_spec script js_shadow_root) as [->|Hs]; [repeat split; auto|].
    destruct (String.eqb_spec script js_click) as [->|Hc]; cbn; [|repeat split; auto].
    destruct (Locator_eqb (el_loc arg) loc_btn_primary) eqn:E1; [|repeat split; auto].
    unfold Locator_eqb in E1. destruct (el_loc arg) as [b s]. cbn in E1.
    apply andb_true_iff in E1 as [Hb Hs']. apply String.eqb_eq in Hs'. subst s.
    destruct b; try discriminate. repeat split; auto.
Qed.

Lemma shadow_run_clicked (t : list Event) (s : ShadowState) :
  log_run shadow_classify shadow_delta Clicked t = Some s -> s = Clicked.
Proof.
  induction t as [|e t IH]; cbn; [congruence|].
  unfold log_step. destruct (shadow_classify e) as [[]|]; cbn; auto; discriminate.
Qed.

(** What a log that the automaton reads says, in numbers. *)
Lemma shadow_run_summary (t : list Event) (s0 s : ShadowState) :
  log_run shadow_classify shadow_delta s0 t = Some s ->
  (count_calls is_shadow_eval t + evals_left s = evals_left s0)%nat
  /\ (count_calls is_shadow_find t + finds_left s = finds_left s0)%nat
  /\ (Exists submit_clicked t -> s = Clicked)
  /\ (s = Clicked -> s0 = Clicked \/ Exists clicks_shadow_button t).
Proof.
  revert s0. induction t as [|e t IH]; intros s0; cbn [log_run].
  - intros [= <-]. repeat split; auto. intros H. inversion H.
  - unfold log_step. pose proof (shadow_classify_spec e) as He.
    rewrite !count_calls_cons.
    destruct (shadow_classify e) as [a|]; cbn.
    + destruct (shadow_delta s0 a) as [s1|] eqn:Hd; [|discriminate].
      intros Hrun. destruct (IH s1 Hrun) as (H1 & H2 & H3 & H4).
      destruct a, s0; try discriminate Hd; injection Hd as <-;
        repeat match goal with H : _ /\ _ |- _ => destruct H end;
        repeat match goal with H : _ = true |- _ => rewrite H | H : _ = false |- _ => rewrite H end;
        (split; [cbn in *; lia|]); (split; [cbn in *; lia|]);
        (split; [intros Hs; first [ exact (shadow_run_clicked _ _ Hrun)
                                  | apply H3; inversion Hs; subst; [contradiction|assumption] ]|]);
        intros ->; first [ left; reflexivity
                         | right; left; assumption
                         | right; right; destruct (H4 eq_refl) as [[=]|H4']; exact H4' ].
    + intros Hrun. destruct (IH s0 Hrun) as (H1 & H2 & H3 & H4).
      destruct He as (-> & -> & Hn). repeat split; auto.
      * intros Hs. apply H3. inversion Hs; subst; [contradiction|assumption].
      * intros Hs. destruct (H4 Hs) as [?|?]; [left; assumption | right; right; assumption].
Qed.

(** Steps that cannot raise keep an assertion at no condition on the
    exceptional exit. *)
Lemma hoare_bind_total {A B} (I : Assertion) (phi : Event -> Prop)
    (R : World -> World -> Prop) (m : M A) (f : A -> M B) (Q : Result B -> Assertion) :
  stable I phi R -> within R phi m -> never_raises m ->
  (forall a, hoare I (f a) Q) ->
  hoare I (m ≫= f) Q.
Proof.
  intros Hs Hm Hn Hf w t Hw. rewrite bind_run.
  destruct (Hn w) as [a Ha]. rewrite Ha. cbn. rewrite app_assoc.
  apply Hf. destruct (Hm w) as [HR Hl]. eapply Hs; eauto.
Qed.

Lemma emit_never_raises (c : Call) : never_raises (emit c).
Proof. intros w. exists tt. reflexivity. Qed.

Lemma sleep_never_raises (secs : Z) : (secs <? 0) = false -> never_raises (sleep secs).
Proof. intros H w. exists tt. unfold sleep, sleep_as. rewrite H. reflexivity. Qed.

Ltac step_total :=
  idtac;
  lazymatch goal with
  | |- hoare _ (print _ ≫= _) _ =>
      eapply hoare_bind_total;
      [ solve [eauto with stable] | solve [within_auto] | apply emit_never_raises | intros ? ]
  | |- hoare _ (sleep _ ≫= _) _ =>
      eapply hoare_bind_total;
      [ solve [eauto with stable] | solve [within_auto]
      | apply sleep_never_raises; reflexivity | intros ? ]
  end.

(** The [try] statement around the click on the button found in the shadow
    root: whichever way it is left, a click was asked for. *)
Ltac step_shadow_click :=
  idtac;
  lazymatch goal with
  | |- hoare (reaches ?c ?d ?s0 Found) (try_except _ _ ≫= _) _ =>
      eapply (hoare_bind _ (fun _ => reaches c d s0 Clicked));
      [ eapply (hoare_try_except_walk _ (reaches c d s0 Clicked) (reaches c d s0 Clicked))
      | intros ?
      | intros ? ? ?; solve [eauto with stable] ]
  end.

Ltac special_shadow := first [ step_total | step_shadow_click | step_perform ].

Lemma apply_to_job_shadow_in_order (job_card : Elem) (job_title : string)
    (applied_jobs : nat) :
  hoare (reaches shadow_classify shadow_delta NotYet NotYet)
        (Rev0925.apply_to_job job_card job_title applied_jobs)
        (fun _ => shadow_in_order).
Proof.
  unfold shadow_in_order, Rev0925.apply_to_job, Rev0925.apply_to_job_guarded,
    Rev0925.apply_to_job_body, Rev0925.apply_to_job_handlers, Rev0925.apply_to_job_attempt,
    apply_to_job_cleanup, log_available_buttons, capture_screenshot, create_directory.
  walk special_shadow.
Qed.

Lemma expected_0925_shadow (S : string) (lo hi : Z) (e : Event) :
  expected_call_0925 S lo hi e -> sanctioned_shadow_access e.
Proof.
  destruct e as [c ok]. unfold expected_call_0925, sanctioned_shadow_access. cbn.
  destruct c; auto.
  - destruct sc; auto.
  - destruct sc; auto.
  - intros [->|[[-> _]|[[-> _]|[_ H]]]] Hs; try discriminate Hs. exact H.
Qed.

(** C2 (amended): in every call of [apply_to_job] of the last revision the
    shadow root is evaluated at most once and an element is looked up in a
    shadow root at most once, in this order and followed by the clicks on
    the button found; when Submit is clicked, the evaluation and the lookup
    happened exactly once and the button was clicked.  In the whole script
    the only shadow root evaluated is that of [apply-button-wc], and the
    only element looked up in it is [button.btn.btn-primary]. *)
Theorem shadow_root_used_for_one_button (job_card : Elem) (job_title : string)
    (applied_jobs : nat) (w : World) (cfg : gmap string string) (w' : World) :
  let o := Rev0925.apply_to_job job_card job_title applied_jobs w in
  shadow_in_order (post o) (log o)
  /\ (count_calls is_shadow_eval (log o) <= 1)%nat
  /\ (count_calls is_shadow_find (log o) <= 1)%nat
  /\ (Exists submit_clicked (log o) ->
      count_calls is_shadow_eval (log o) = 1%nat
      /\ count_calls is_shadow_find (log o) = 1%nat
      /\ Exists clicks_shadow_button (log o))
  /\ Forall sanctioned_shadow_access (log (Rev0925.script cfg w')).
Proof.
  cbv zeta.
  pose proof (hoare_run _ _ _ w
                (apply_to_job_shadow_in_order job_card job_title applied_jobs) eq_refl)
    as Hacc.
  split; [exact Hacc|]. destruct Hacc as [s Hs].
  destruct (shadow_run_summary _ _ _ Hs) as (H1 & H2 & H3 & H4). cbn in H1, H2.
  split; [lia|]. split; [lia|]. split.
  - intros Hsub. specialize (H3 Hsub). subst s. cbn in H1, H2.
    destruct (H4 eq_refl) as [[=]|Hc]. repeat split; [lia | lia | exact Hc].
  - eapply Forall_impl; [apply script_calls_0925 | apply expected_0925_shadow].
Qed.

Lemma shadow_root_used_for_one_button_witness :
  let o := Rev0925.apply_to_job Examples.job_card Examples.title 0
             Examples.before_application in
  count_calls is_shadow_eval (log o) = 1%nat
  /\ count_calls is_shadow_find (log o) = 1%nat
  /\ Exists clicks_shadow_button (log o).
Proof.
  apply (shadow_root_used_for_one_button Examples.job_card Examples.title 0
           Examples.before_application Examples.config Examples.one_application).
  apply List.Exists_exists. exists (Ev (Click (mkElem loc_submit 10)) true).
  split; [vm_compute; in_list | split; reflexivity].
Defined.

(** C2 as stated fails: an attempt that fails before the Easy Apply step
    (here the job title never becomes clickable) does not evaluate the
    shadow root. *)
Lemma attempt_without_shadow_root :
  let o := Rev0925.apply_to_job Examples.job_card Examples.title 0
             Examples.title_not_clickable in
  In (Ev (WaitUntil 20 (element_to_be_clickable loc_card_title_link)) false) (log o)
  /\ count_calls is_shadow_eval (log o) = 0%nat.
Proof. vm_compute. split; [in_list | reflexivity]. Qed.

(** ** C1: the order of the phases *)

(** What the phase automaton accepts is in order. *)
Lemma phase_run_sorted (t : list Event) (s0 s : Phase) :
  log_run phase_of phase_delta s0 t = Some s ->
  Forall (phase_le s0) (phases t) /\ phases_in_order t.
Proof.
  unfold phases_in_order, phases.
  revert s0. induction t as [|e t IH]; intros s0; cbn [log_run omap list_omap].
  - intros _. split; constructor.
  - unfold log_step. destruct (phase_of e) as [p|] eqn:Ep; cbn.
    + unfold phase_delta. destruct (phase_rank s0 <=? phase_rank p)%nat eqn:Hle; [|discriminate].
      apply Nat.leb_le in Hle. intros Hrun. destruct (IH p Hrun) as [Hall Hs].
      split.
      * constructor; [exact Hle|].
        eapply Forall_impl; [exact Hall|]. unfold phase_le. intros q Hq. cbn in Hq. lia.
      * constructor; [exact Hs | exact Hall].
    + apply IH.
Qed.

Lemma accepted_in_order (w : World) (t : list Event) :
  accepted phase_of phase_delta Config w t -> phases_in_order t.
Proof. intros [s H]. apply (phase_run_sorted t Config s H). Qed.

(** The loop of the last revision stays in its phase. *)
Section Phases0925.

Variables MIN_PAUSE MAX_PAUSE : Z.

Local Abbreviation in_loop := (loops phase_of phase_delta Loop).

Lemma apply_to_job_phase (job_card : Elem) (job_title : string) (applied_jobs : nat) :
  within any_world in_loop (Rev0925.apply_to_job job_card job_title applied_jobs).
Proof.
  unfold Rev0925.apply_to_job, Rev0925.apply_to_job_guarded, Rev0925.apply_to_job_body,
    Rev0925.apply_to_job_handlers, Rev0925.apply_to_job_attempt, apply_to_job_cleanup,
    log_available_buttons, capture_screenshot, create_directory.
  within_auto.
Qed.

Hint Resolve apply_to_job_phase : within.

Lemma loop_body_phase (applied_jobs : nat) (index : N) (job_card : Elem) :
  within any_world in_loop
    (Rev0925.loop_body MIN_PAUSE MAX_PAUSE applied_jobs index job_card).
Proof.
  unfold Rev0925.loop_body, Rev0925.job_title_of, Rev0925.pause_between_applications,
    capture_screenshot, create_directory.
  within_auto.
Qed.

Lemma main_loop_phase (applied_jobs : nat) (job_cards : list Elem) (index : N) :
  within any_world in_loop
    (Rev0925.main_loop MIN_PAUSE MAX_PAUSE applied_jobs index job_cards).
Proof.
  revert index. induction job_cards as [|job_card rest IH]; intros index; cbn.
  - within_rule within_ret.
  - within_rule within_bind; [apply loop_body_phase | intros _; apply IH].
Qed.

End Phases0925.

#[global] Hint Resolve main_loop_phase : within.

Lemma launch_browser_phase :
  hoare (reaches phase_of phase_delta Config Config) Rev0925.launch_browser
        (fun _ => reaches phase_of phase_delta Config Launching).
Proof.
  unfold Rev0925.launch_browser.
  eapply (hoare_bind _ (fun _ => reaches phase_of phase_delta Config Launching)).
  - eapply (hoare_try_except_walk _ (reaches phase_of phase_delta Config Launching)
              (reaches phase_of phase_delta Config Launching));
      [walk step_perform | auto | walk_side; walk step_perform].
  - intros ?. walk step_perform.
  - auto.
Qed.

Lemma activate_easy_apply_filter_phase (terms : string) :
  hoare (reaches phase_of phase_delta Config Search)
        (Rev0925.activate_easy_apply_filter terms)
        (fun _ => reaches phase_of phase_delta Config Filter).
Proof.
  unfold Rev0925.activate_easy_apply_filter, Rev0925.activate_easy_apply_filter_body,
    capture_screenshot, create_directory.
  eapply (hoare_try_except_walk _ (reaches phase_of phase_delta Config Filter)
            (reaches phase_of phase_delta Config Filter));
    [walk step_perform | auto | walk_side; walk step_perform].
Qed.

(** The steps of the script at which a phase begins. *)
Ltac step_phase :=
  idtac;
  lazymatch goal with
  | |- hoare _ (Rev0925.launch_browser ≫= _) _ =>
      eapply hoare_bind;
      [ apply launch_browser_phase | intros ?
      | intros ? ? ?; cbv beta; solve [eauto with stable] ]
  | |- hoare _ (Rev0925.activate_easy_apply_filter _ ≫= _) _ =>
      eapply hoare_bind;
      [ apply activate_easy_apply_filter_phase | intros ?
      | intros ? ? ?; cbv beta; solve [eauto with stable] ]
  | |- _ => step_perform
  end.

Lemma script_phases_0925 (cfg : gmap string string) :
  hoare (reaches phase_of phase_delta Config Config) (Rev0925.script cfg)
        (fun _ => accepted phase_of phase_delta Config).
Proof.
  unfold Rev0925.script, Rev0925.main, Rev0925.read_pause_range,
    capture_screenshot, create_directory.
  walk step_phase.
Qed.

(** The loop of the first revision stays in its phase. *)
Section Phases0920.

Variable RESUME_PATH : string.
Variable PAUSE_DURATION : Z.

Local Abbreviation in_loop := (loops phase_of phase_delta Loop).

Lemma loop_body_phase_0920 (job : Elem) :
  within any_world in_loop (Rev0920.loop_body RESUME_PATH PAUSE_DURATION job).
Proof.
  unfold Rev0920.loop_body, Rev0920.apply_to_job, Rev0920.logging_info,
    Rev0920.logging_error.
  within_auto.
Qed.

Lemma main_loop_phase_0920 (jobs : list Elem) :
  within any_world in_loop (Rev0920.main_loop RESUME_PATH PAUSE_DURATION jobs).
Proof.
  induction jobs as [|job rest IH]; cbn.
  - within_rule within_ret.
  - within_rule within_bind; [apply loop_body_phase_0920 | intros _; apply IH].
Qed.

End Phases0920.

#[global] Hint Resolve main_loop_phase_0920 : within.

Lemma script_phases_0920 (cfg : gmap string string) :
  hoare (reaches phase_of phase_delta Config Config) (Rev0920.script cfg)
        (fun _ => accepted phase_of phase_delta Config).
Proof.
  unfold Rev0920.script, Rev0920.main, Rev0920.login_to_dice.
  walk step_perform.
Qed.

Lemma phase_of_locator_not_filter (loc : Locator) : phase_of_locator loc <> Filter.
Proof.
  unfold phase_of_locator.
  destruct (existsb _ login_locators); [discriminate|].
  destruct (existsb _ search_locators); discriminate.
Qed.

(** Case analysis on what an inventory says of a call. *)
Ltac inventory_cases :=
  repeat match goal with
         | H : _ /\ _ |- _ => destruct H
         | H : _ \/ _ |- _ => destruct H
         | H : In _ (_ :: _) |- _ => cbn [In] in H
         | H : In _ [] |- _ => destruct H
         | H : False |- _ => destruct H
         | H : el_loc _ = _ |- _ => rewrite H in *; clear H
         | H : _ = el_loc _ |- _ => rewrite <- H in *; clear H
         | H : presence_of_element_located _ = _ |- _ => first [discriminate H | injection H as H]
         | H : presence_of_all_elements_located _ = _ |- _ =>
             first [discriminate H | injection H as H]
         | H : element_to_be_clickable _ = _ |- _ => first [discriminate H | injection H as H]
         | H : url_contains _ = _ |- _ => first [discriminate H | injection H as H]
         | H : (_, _) = (_, _) |- _ => injection H as H ?
         end;
  subst.

Lemma expected_0925_no_login (S : string) (lo hi : Z) (e : Event) :
  expected_call_0925 S lo hi e -> phase_of e <> Some Login.
Proof.
  destruct e as [c ok]. unfold expected_call_0925, phase_of. cbn [ev_call].
  destruct c; try discriminate;
    try match goal with sc : Scope |- _ => destruct sc end;
    try match goal with c : Condition |- _ => destruct c end;
    try discriminate; intros H; inventory_cases; discriminate.
Qed.

Lemma expected_0920_no_filter (S R : string) (p : Z) (E P : string) (e : Event) :
  expected_call_0920 S R p E P e -> phase_of e <> Some Filter.
Proof.
  destruct e as [c ok]. unfold expected_call_0920, phase_of. cbn [ev_call].
  destruct c; try discriminate; try contradiction;
    try match goal with sc : Scope |- _ => destruct sc end;
    try discriminate; intros _ [= H]; exact (phase_of_locator_not_filter _ H).
Qed.

Lemma expected_0920_login (S R : string) (p : Z) (E P : string) (e : Event) :
  expected_call_0920 S R p E P e -> login_sends E P e.
Proof.
  destruct e as [c ok]. unfold expected_call_0920, login_sends. cbn [ev_call].
  destruct c; auto. intros H. inventory_cases;
    split; intros Hl; try reflexivity; discriminate Hl.
Qed.

Lemma not_in_phases (p : Phase) (t : list Event) :
  Forall (fun e => phase_of e <> Some p) t -> ~ In p (phases t).
Proof.
  intros H Hin. unfold phases in Hin.
  apply list_elem_of_In, list_elem_of_omap in Hin as (e & He & Hp).
  rewrite Forall_forall in H. exact (H e He Hp).
Qed.

(** C1 (amended): in every run of the last revision and of the first one, the
    calls come in the order configuration, browser launch, login, search,
    filter, loop over the job cards: no call of a phase comes after a call of
    a later one.  The last revision has no login step and the first one no
    filter; in the first one the login form receives the [Email] and the
    [Password] of [config.ini]. *)
Theorem script_phases_in_order (cfg : gmap string string) (w : World) :
  phases_in_order (log (Rev0925.script cfg w))
  /\ ~ In Login (phases (log (Rev0925.script cfg w)))
  /\ phases_in_order (log (Rev0920.script cfg w))
  /\ ~ In Filter (phases (log (Rev0920.script cfg w)))
  /\ Forall (login_sends (config_text cfg "Email") (config_text cfg "Password"))
       (log (Rev0920.script cfg w)).
Proof.
  split; [|split; [|split; [|split]]].
  - apply (accepted_in_order (post (Rev0925.script cfg w))).
    apply (hoare_run _ _ _ w (script_phases_0925 cfg)). reflexivity.
  - apply not_in_phases.
    eapply Forall_impl; [apply script_calls_0925 | apply expected_0925_no_login].
  - apply (accepted_in_order (post (Rev0920.script cfg w))).
    apply (hoare_run _ _ _ w (script_phases_0920 cfg)). reflexivity.
  - apply not_in_phases.
    eapply Forall_impl; [apply script_calls_0920 | apply expected_0920_no_filter].
  - eapply Forall_impl; [apply script_calls_0920 | apply expected_0920_login].
Qed.

(** C1 as stated fails: a run of the last revision activates the filter
    and performs no login step. *)
Lemma last_revision_filters_without_login :
  let t := log (Rev0925.script Examples.config Examples.one_application) in
  In Filter (phases t) /\ ~ In Login (phases t).
Proof.
  vm_compute. split; [in_list|].
  intros H. repeat destruct H as [H|H]; try discriminate H. exact H.
Qed.

(** ** C4: the windows after an attempt *)

(** C4: what [apply_to_job] does when the attempt opens two new tabs.  The
    [finally] block closes the focused tab [W1] and switches back to the
    original window [W0]; the tab [W2] that the click on Easy Apply opened
    stays open after [apply_to_job] has returned. *)
Theorem apply_to_job_leaves_new_window_open :
  let w := Examples.easy_apply_in_new_tab in
  let o := Rev0925.apply_to_job Examples.job_card Examples.title 0 w in
  res o = Ok tt
  /\ handles w = ["W0"]
  /\ handles (post o) = ["W0"; "W2"]
  /\ focus (post o) = "W0"
  /\ ~ new_windows_closed w (post o).
Proof.
  cbv zeta. unfold new_windows_closed.
  assert (H : handles (post (Rev0925.apply_to_job Examples.job_card Examples.title 0
                               Examples.easy_apply_in_new_tab)) = ["W0"; "W2"])
    by (vm_compute; reflexivity).
  rewrite H. repeat split; try (vm_compute; reflexivity).
  intros Hc. specialize (Hc "W2" (or_intror (or_introl eq_refl))).
  vm_compute in Hc. destruct Hc as [Hc|[]]. discriminate Hc.
Qed.
